(** * consumer/host.go: the RabbitMQ consumer host

    A shallow embedding of [src/consumer/host.go] and the properties of its
    message pipeline, middleware chain, connection loop, per-queue tasks and
    shutdown.

    Effects are kept explicit.  A piece of Go code that talks to the broker,
    the logger or the clock is a computation in the monad [M]: it emits a
    trace of [Event]s, in program order, and ends either normally, in a panic
    that is still unwinding, or with the process gone ([os.Exit]).  What the
    outside world answers (dial results, channel acquisition, notifications)
    is passed in as an argument.  Goroutines are modelled one step at a time
    between two blocking points, over the shared [RabbitHost] state. *)

From stdpp Require Import base option list strings gmap fin_maps.
From Stdlib Require Import ZArith.

Local Open Scope string_scope.
Local Open Scope list_scope.

(** ** Values of the Go program *)

(** A Go [error] value: the [*errors.errorString] made by [errors.New], or a
    value of another dynamic type, of which only the type's name and the text
    of [Error()] matter here. *)
Inductive error : Type :=
| errorString (s : string)
| customError (dynamic_type : string) (text : string).

Definition errors_New (text : string) : error := errorString text.

Definition Error (e : error) : string :=
  match e with
  | errorString s => s
  | customError _ text => text
  end.

(** The value carried by a panic, as the type switch of [panicHandler] sees
    it.  A panic value is a non-nil interface value: since Go 1.21
    [panic(nil)] reaches [recover] as a [*runtime.PanicNilError], which is
    an [error]. *)
Inductive PanicValue : Type :=
| PString (t : string)
| PError (t : error)
| POther (description : string).

(** The runtime error of calling a nil function value. *)
Definition nil_dereference : PanicValue :=
  PError (customError "runtime.Error"
            "invalid memory address or nil pointer dereference").

(** [context.Context], of which the host only passes values along. *)
Inductive context_Context : Type :=
| context_Background
| context_WithValue (key val : string) (parent : context_Context).

(** [amqp.Delivery]: the fields the host reads. *)
Record amqp_Delivery : Type := mkDelivery {
  RoutingKey : string;
  CorrelationId : string;
  DeliveryTag : N;
  Body : string
}.

(** Handles of broker objects. *)
Record amqp_Channel : Type := mkChannel { channel_id : nat }.
Record amqp_Connection : Type := mkConnection { connection_id : nat }.

#[export] Instance amqp_Channel_eq_dec : EqDecision amqp_Channel.
Proof. solve_decision. Defined.

(** Modelled from the spec: [ConsumerConfig] is declared in a file of the
    package that is not at hand; the spec gives it a name, an exclusivity
    flag, a no-wait flag, extra arguments and a dead-letter flag, read through
    the accessors the host calls. *)
Record ConsumerConfig : Type := mkConsumerConfig {
  Name : string;
  Exclusive : bool;
  NoWait : bool;
  Args : list (string * string);
  HasDeadletter : bool
}.

Definition GetName (cfg : ConsumerConfig) : string := Name cfg.
Definition GetExclusive (cfg : ConsumerConfig) : bool := Exclusive cfg.
Definition GetNoWait (cfg : ConsumerConfig) : bool := NoWait cfg.
Definition GetHasDeadletter (cfg : ConsumerConfig) : bool := HasDeadletter cfg.

(** [&ConsumerConfig{}]: every field at its zero value. *)
Definition empty_ConsumerConfig : ConsumerConfig :=
  mkConsumerConfig "" false false [] false.

(** ** Events and the effect monad *)

Inductive Level : Type := DebugLevel | InfoLevel | ErrorLevel | FatalLevel.

Inductive LogArg : Type :=
| LString (s : string)
| LError (e : error)
| LStack.                         (* the bytes of [debug.Stack()] *)

(** The goroutines [Run] starts, by what they close over. *)
Inductive Task : Type :=
| QueueTask (key : string) (cfg : ConsumerConfig)
| ConsumeTask (key : string) (cfg : ConsumerConfig)
| DeadLetterTask (key : string) (cfg : ConsumerConfig).

Inductive Event : Type :=
| Ack (tag : N) (multiple : bool)
| Nack (tag : N) (multiple requeue : bool)
| Logf (lvl : Level) (format : string) (args : list LogArg)
| Logp (lvl : Level) (args : list LogArg)
| Sleep (milliseconds : Z)
| Dial (address : string)
| OpenChannel
| CloseChannel (ch : amqp_Channel)
| CloseConnection
| BuildQueue (key exchange_name : string) (ch : amqp_Channel)
| BuildDeadletterQueue (key exchange_name : string) (ch : amqp_Channel)
| Consume (queue consumer : string) (autoAck exclusive noLocal noWait : bool)
| Go (t : Task).

Inductive Res (A : Type) : Type :=
| Normal (a : A)
| Panicked (v : PanicValue)
| Exited (code : Z).
Arguments Normal {A} a.
Arguments Panicked {A} v.
Arguments Exited {A} code.

Definition M (A : Type) : Type := (list Event * Res A)%type.

Definition ret {A} (a : A) : M A := ([], Normal a).

Definition bind {A B} (m : M A) (k : A -> M B) : M B :=
  match m with
  | (evs, Normal a) => let '(evs', r) := k a in (evs ++ evs', r)
  | (evs, Panicked v) => (evs, Panicked v)
  | (evs, Exited code) => (evs, Exited code)
  end.

Notation "x <<- m ;; k" := (bind m (fun x => k))
  (at level 100, m at next level, right associativity).
Notation "m ;;; k" := (bind m (fun _ => k))
  (at level 100, right associativity).

Definition emit (e : Event) : M unit := ([e], Normal tt).
Definition panic {A} (v : PanicValue) : M A := ([], Panicked v).
Definition lift {A} (r : Res A) : M A := ([], r).

Definition trace {A} (m : M A) : list Event := fst m.
Definition result {A} (m : M A) : Res A := snd m.

(** A function whose only deferred call is [func() { r := recover(); ... }()]:
    the deferred function runs when the body returns and when it panics, and
    since it calls [recover] the panic stops there.  [os.Exit] runs no
    deferred call. *)
Definition defer_recover (deferred : option PanicValue -> M unit)
    (body : M unit) : M unit :=
  match body with
  | (evs, Normal _) => let '(evs', r) := deferred None in (evs ++ evs', r)
  | (evs, Panicked v) => let '(evs', r) := deferred (Some v) in (evs ++ evs', r)
  | (evs, Exited code) => (evs, Exited code)
  end.

Fixpoint for_range {A} (xs : list A) (body : A -> M unit) : M unit :=
  match xs with
  | [] => ret tt
  | x :: rest => body x ;;; for_range rest body
  end.

(** logrus *)
Definition log_Debugf (format : string) (args : list LogArg) : M unit :=
  emit (Logf DebugLevel format args).
Definition log_Infof (format : string) (args : list LogArg) : M unit :=
  emit (Logf InfoLevel format args).
Definition log_Errorf (format : string) (args : list LogArg) : M unit :=
  emit (Logf ErrorLevel format args).
Definition log_Error (args : list LogArg) : M unit :=
  emit (Logp ErrorLevel args).
(** [log.Fatal] logs and then calls [os.Exit(1)]. *)
Definition log_Fatal {A} (args : list LogArg) : M A :=
  ([Logp FatalLevel args], Exited 1%Z).

(** [d.Ack(multiple)] and [d.Nack(multiple, requeue)]; the host drops the
    error they return. *)
Definition Delivery_Ack (d : amqp_Delivery) (multiple : bool) : M unit :=
  emit (Ack (DeliveryTag d) multiple).
Definition Delivery_Nack (d : amqp_Delivery) (multiple requeue : bool) : M unit :=
  emit (Nack (DeliveryTag d) multiple requeue).

(** ** Handlers *)

Definition HandlerFunc : Type := context_Context -> amqp_Delivery -> M unit.
Definition KeyHandlerFunc : Type :=
  context_Context -> amqp_Delivery -> M (option error).
Definition HostMiddleware : Type := HandlerFunc -> HandlerFunc.

(** The type switch of [panicHandler]. *)
Definition recovered_error (r : PanicValue) : error :=
  match r with
  | PString t => errors_New t
  | PError t => t
  | POther _ => errors_New "unknown error"
  end.

Definition panicHandler (h : HandlerFunc) : HandlerFunc :=
  fun ctx d =>
    defer_recover
      (fun r =>
         match r with
         | Some r =>
             let err := recovered_error r in
             log_Errorf "panic handler recovered from unexpected panic, error: %s"
               [LError err] ;;;
             log_Debugf "stack: %s" [LStack] ;;;
             Delivery_Nack d false false
         | None => ret tt
         end)
      (h ctx d).

Definition errorHandler (h : KeyHandlerFunc) : HandlerFunc :=
  fun ctx d =>
    err <<- h ctx d ;;
    match err with
    | Some err =>
        log_Infof "error sending message with key %s and correlationid %v. Error: %s"
          [LString (RoutingKey d); LString (CorrelationId d); LString (Error err)] ;;;
        Delivery_Nack d false false
    | None => Delivery_Ack d false
    end.

(** ** Slices

    A Go slice is a window on a backing array: [arr] is the array from the
    slice's first element to the array's end, so [cap] is its length, and
    [len] says how much of it the slice shows.  A function value may be nil,
    so a slice of middleware holds [option HostMiddleware]. *)

Record slice (T : Type) : Type := mkSlice { arr : list T; len : nat }.
Arguments mkSlice {T} arr len.
Arguments arr {T} s.
Arguments len {T} s.

(** The capacity [append] gives the new array when the old one is too
    small, as [runtime.growslice] computes it in Go 1.22 on a 64-bit platform
    for a slice of function values, which are one pointer, 8 bytes, each.  [nextslicecap] picks the capacity to ask for: the length needed
    when that is more than twice the old capacity; else twice the old
    capacity when that is below 256; else the old capacity grown by a quarter
    of itself plus 192 until it is enough.  The allocator then rounds the
    bytes asked for up to a size class ([roundupsize]), and the capacity is
    what fits in the block: an append of 5 functions to a nil slice asks for
    40 bytes, gets 48, and the capacity is 6. *)
Definition class_to_size : list N :=
  [8; 16; 24; 32; 48; 64; 80; 96; 112; 128; 144; 160; 176; 192; 208; 224;
   240; 256; 288; 320; 352; 384; 416; 448; 480; 512; 576; 640; 704; 768; 896;
   1024; 1152; 1280; 1408; 1536; 1792; 2048; 2304; 2688; 3072; 3200; 3456;
   4096; 4864; 5120; 5376; 6144; 6528; 6784; 6912; 8192; 9472; 9728; 10240;
   10880; 12288; 13568; 14336; 16384; 18432; 19072; 20480; 21760; 24576;
   27264; 28672; 32768]%N.

(** [roundupsize(size, noscan)] for a block that holds pointers ([noscan]
    false): a block of more than 512 bytes carries a header of 8 bytes, which
    is taken off what the class gives; a block that is no small object is
    rounded up to whole pages of 8192 bytes. *)
Definition roundupsize (size : N) : N :=
  if (size <=? 32768 - 8)%N then
    let reqSize := if (512 <? size)%N then (size + 8)%N else size in
    match List.find (fun class => (reqSize <=? class)%N) class_to_size with
    | Some class => (class - (reqSize - size))%N
    | None => size
    end
  else ((size + 8191) / 8192 * 8192)%N.

(** The loop of [nextslicecap] for an old capacity of 256 or more. *)
Fixpoint grow_by_quarters (fuel : nat) (newcap newLen : N) : N :=
  match fuel with
  | O => newcap
  | S fuel =>
      let newcap := (newcap + (newcap + 3 * 256) / 4)%N in
      if (newLen <=? newcap)%N then newcap
      else grow_by_quarters fuel newcap newLen
  end.

Definition nextslicecap (newLen oldCap : N) : N :=
  let doublecap := (oldCap + oldCap)%N in
  if (doublecap <? newLen)%N then newLen
  else if (oldCap <? 256)%N then doublecap
  else grow_by_quarters (N.to_nat newLen) oldCap newLen.

Definition growslice_cap (oldcap needed : nat) : nat :=
  N.to_nat (roundupsize (nextslicecap (N.of_nat needed) (N.of_nat oldcap) * 8) / 8).

Section slices.
Context {T : Type}.

Definition cap (s : slice T) : nat := length (arr s).

Definition slice_wf (s : slice T) : Prop := len s <= cap s.

Definition nil_slice : slice T := mkSlice [] 0.

(** [s[i]]; [None] is the panic when [i] is not below [len(s)]. *)
Definition index (s : slice T) (i : nat) : option T :=
  if decide (i < len s) then arr s !! i else None.

(** [s[low:high]]; [None] is the panic unless [low <= high <= cap(s)]. *)
Definition reslice (s : slice T) (low high : nat) : option (slice T) :=
  if decide (low <= high <= cap s)
  then Some (mkSlice (drop low (arr s)) (high - low))
  else None.

(** [append(s, xs...)]: in place when the capacity allows it, else into a
    new array whose spare elements are the zero value. *)
Definition append (zero : T) (s : slice T) (xs : list T) : slice T :=
  let needed := len s + length xs in
  if decide (needed <= cap s)
  then mkSlice (take (len s) (arr s) ++ xs ++ drop needed (arr s)) needed
  else mkSlice (take (len s) (arr s) ++ xs
                  ++ replicate (growslice_cap (cap s) needed - needed) zero)
               needed.
End slices.

Definition MiddlewareList : Type := slice (option HostMiddleware).

(** Calling a function value. *)
Definition call (m0 : option HostMiddleware) (inner : HandlerFunc)
    : Res HandlerFunc :=
  match m0 with
  | Some mw => Normal (mw inner)
  | None => Panicked nil_dereference
  end.

Definition res_bind {A B} (r : Res A) (k : A -> Res B) : Res B :=
  match r with
  | Normal a => k a
  | Panicked v => Panicked v
  | Exited code => Exited code
  end.

(** [buildChain]'s recursion goes down the backing array: the slice it
    passes on is [m[1:cap(m)]], which shows all that is left of the array.
    [buildChain_from f a n] is the call on the slice of array [a] and length
    [n]; [buildChain_unfold] below gives the equation of the source. *)
Fixpoint buildChain_from (f : HandlerFunc) (a : list (option HostMiddleware))
    (n : nat) {struct a} : Res HandlerFunc :=
  match n with
  | O => Normal f
  | S _ =>
      match a with
      | [] => Panicked (PError (customError "runtime.Error" "index out of range"))
      | m0 :: rest =>
          res_bind (buildChain_from f rest (length rest)) (call m0)
      end
  end.

Definition buildChain (f : HandlerFunc) (m : MiddlewareList) : Res HandlerFunc :=
  buildChain_from f (arr m) (len m).

(** The nesting the chain is meant to be: the first middleware outermost. *)
Fixpoint nest (mws : list HostMiddleware) (f : HandlerFunc) : HandlerFunc :=
  match mws with
  | [] => f
  | mw :: rest => mw (nest rest f)
  end.

(** ** The host *)

Record HostConfig : Type := mkHostConfig { Address : string }.

(** Modelled from the spec: [Routes], declared elsewhere in the package, is
    a queue's bindings with the keyed delivery function. *)
Record Routes : Type := mkRoutes {
  Keys : list string;
  DeliveryFunc : KeyHandlerFunc
}.

(** Modelled from the spec: the [Consumer] interface, declared elsewhere in
    the package: [Init], [Queues] and [Middleware].  [Init] stands for what
    the call returns, a config that may be nil and an error that may be nil. *)
Record Consumer : Type := mkConsumer {
  Init : option ConsumerConfig * option error;
  Queues : context_Context -> gmap string Routes;
  Consumer_Middleware : HostMiddleware
}.

(** Modelled from the spec: [ExchangeConfig], declared elsewhere in the
    package; [GetName] returns the exchange's name or an error. *)
Record ExchangeConfig : Type := mkExchangeConfig {
  Exchange_GetName : string + error
}.

Record Exchange : Type := mkExchange {
  exchange : ExchangeConfig;
  consumers : list Consumer
}.

Record RabbitHost : Type := mkRabbitHost {
  c : HostConfig;
  connection : option amqp_Connection;
  exchanges : list Exchange;
  channels : gmap string amqp_Channel;
  middleware : MiddlewareList;
  connected : bool;
  shutdown : bool
}.

Definition set_connection (conn : amqp_Connection) (h : RabbitHost) : RabbitHost :=
  mkRabbitHost (c h) (Some conn) (exchanges h) (channels h) (middleware h)
    (connected h) (shutdown h).
Definition set_exchanges (xs : list Exchange) (h : RabbitHost) : RabbitHost :=
  mkRabbitHost (c h) (connection h) xs (channels h) (middleware h)
    (connected h) (shutdown h).
Definition set_channels (m : gmap string amqp_Channel) (h : RabbitHost) : RabbitHost :=
  mkRabbitHost (c h) (connection h) (exchanges h) m (middleware h)
    (connected h) (shutdown h).
Definition set_middleware (m : MiddlewareList) (h : RabbitHost) : RabbitHost :=
  mkRabbitHost (c h) (connection h) (exchanges h) (channels h) m
    (connected h) (shutdown h).
Definition set_connected (b : bool) (h : RabbitHost) : RabbitHost :=
  mkRabbitHost (c h) (connection h) (exchanges h) (channels h) (middleware h)
    b (shutdown h).
Definition set_shutdown (b : bool) (h : RabbitHost) : RabbitHost :=
  mkRabbitHost (c h) (connection h) (exchanges h) (channels h) (middleware h)
    (connected h) b.

(** The host as [NewConsumerHost] allocates it. *)
Definition new_RabbitHost (cfg : HostConfig) : RabbitHost :=
  mkRabbitHost cfg None [] ∅ nil_slice false false.

Definition AddBroker (cfg : ExchangeConfig) (cs : list Consumer) (h : RabbitHost)
    : RabbitHost * option error :=
  (set_exchanges (exchanges h ++ [mkExchange cfg cs]) h, None).

Definition Middleware (fn : list (option HostMiddleware)) (h : RabbitHost)
    : RabbitHost :=
  set_middleware (append None (middleware h) fn) h.

Definition GetConnectionStatus (h : RabbitHost) : bool := connected h.

(** ** The connection loop *)

Inductive LoopCtl : Type := Continue | Break | Return.

Definition newline : string := String (Ascii.ascii_of_nat 10) EmptyString.

(** One turn of the [for] loop of [connect], given what [amqp.Dial]
    answered. *)
Definition connect_attempt (dialed : error + amqp_Connection) (h : RabbitHost)
    : RabbitHost * list Event * LoopCtl :=
  match dialed with
  | inr conn =>
      (set_connection conn (set_connected true h),
       [Dial (Address (c h));
        Logf InfoLevel ("connected to %s successful" +:+ newline)
          [LString (Address (c h))]],
       Break)
  | inl err =>
      (h,
       [Dial (Address (c h));
        Logp ErrorLevel [LError err];
        Logf InfoLevel ("Trying to reconnect to RabbitMQ at %s" +:+ newline)
          [LString (Address (c h))];
        Sleep 200],
       Continue)
  end.

(** [connect], run against the answers of the successive dials.  [None]: the
    answers are used up and the loop is still turning. *)
Fixpoint connect (dials : list (error + amqp_Connection)) (h : RabbitHost)
    : option (RabbitHost * list Event) :=
  match dials with
  | [] => None
  | dialed :: rest =>
      let '(h', evs, ctl) := connect_attempt dialed h in
      match ctl with
      | Continue =>
          match connect rest h' with
          | Some (h'', evs') => Some (h'', evs ++ evs')
          | None => None
          end
      | _ => Some (h', evs)
      end
  end.

(** The host after each of the attempts made, oldest first. *)
Fixpoint connect_states (dials : list (error + amqp_Connection)) (h : RabbitHost)
    : list RabbitHost :=
  match dials with
  | [] => []
  | dialed :: rest =>
      let '(h', _, ctl) := connect_attempt dialed h in
      match ctl with
      | Continue => h' :: connect_states rest h'
      | _ => [h']
      end
  end.

Definition is_retry_event (e : Event) : bool :=
  match e with
  | Logf InfoLevel format _ =>
      bool_decide (format = "Trying to reconnect to RabbitMQ at %s" +:+ newline)
  | _ => false
  end.

(** ** The task of one queue (the goroutine of lines 119-188)

    A step runs from one blocking point to the next on the host as it is at
    that moment; other goroutines may change the host between two steps. *)

Inductive Signal : Type :=
| ChannelClosed (queueErr : option error)   (* a receive on [closeChannel] *)
| QueueCancelled (tag : string).            (* a receive on [cancelChannel] *)

Inductive QueuePC : Type := QueueTop | QueueSelect | QueueDone.

(** From the top of the loop to the [select] (or back to the top after a
    sleep).  [acquired] is what [h.connection.Channel()] answers if asked. *)
Definition queue_top (key exchange_name : string) (cfg : ConsumerConfig)
    (acquired : error + amqp_Channel) (h : RabbitHost)
    : RabbitHost * list Event * QueuePC :=
  if negb (connected h) then (h, [Sleep 200], QueueTop)
  else
    match acquired with
    | inl err =>
        (h,
         [OpenChannel;
          Logp ErrorLevel
            [LString "error setting up consumer queue for %s"; LString key];
          Sleep 500],
         QueueTop)
    | inr queueChannel =>
        (set_channels (<[key := queueChannel]> (channels h)) h,
         [OpenChannel;
          BuildQueue key exchange_name queueChannel;
          Go (ConsumeTask key cfg)],
         QueueSelect)
    end.

(** The [select] and what follows it.  [k] is the loop variable of the
    enclosing [range], which the log lines name. *)
Definition queue_select (key k : string) (sig : Signal) (h : RabbitHost)
    : RabbitHost * list Event * QueuePC :=
  match sig with
  | ChannelClosed queueErr =>
      if shutdown h then (h, [], QueueDone)
      else
        (set_channels (delete key (channels h)) h,
         match queueErr with
         | Some queueErr =>
             [Logf ErrorLevel "queue channel closed for queue %s: %s"
                [LString k; LString (Error queueErr)]]
         | None => []
         end,
         QueueTop)
  | QueueCancelled _ =>
      if shutdown h then (h, [], QueueDone)
      else
        (set_channels (delete key (channels h)) h,
         [Logf InfoLevel "channel for queue %s deleted, recreating" [LString k]],
         QueueTop)
  end.

(** ** The goroutine that consumes (lines 151-165)

    [uuid] is what [uuid.NewUUID()] returns and [consumed] what [Consume]
    answers: an error, or the deliveries that arrive on [msgs] until the
    channel is closed.  [HandleMessage], a method of [HandlerFunc] declared
    elsewhere in the package, is taken to call the handler it is invoked
    on. *)

Definition consume_task (h : RabbitHost) (c : Consumer) (cfg : ConsumerConfig)
    (key : string) (routes : Routes) (uuid : string)
    (consumed : error + list amqp_Delivery) : M unit :=
  emit (Consume key (GetName cfg +:+ "-" +:+ uuid) false (GetExclusive cfg)
          false (GetNoWait cfg)) ;;;
  match consumed with
  | inl err => log_Fatal [LError err]
  | inr msgs =>
      middleware <<- lift (buildChain
                             (Consumer_Middleware c (errorHandler (DeliveryFunc routes)))
                             (middleware h)) ;;
      for_range msgs (fun d => panicHandler middleware context_Background d)
  end.

(** The handler a queue's deliveries go through, when the chain builds. *)
Definition pipeline (host_middleware : MiddlewareList) (c : Consumer)
    (routes : Routes) : Res HandlerFunc :=
  res_bind (buildChain (Consumer_Middleware c (errorHandler (DeliveryFunc routes)))
              host_middleware)
           (fun middleware => Normal (panicHandler middleware)).

(** ** Starting the consumers of an exchange (lines 107-225) *)

Definition start_consumer (ctx : context_Context) (c : Consumer) : M unit :=
  let '(cfg, err) := Init c in
  match err with
  | Some err => log_Fatal [LError err]
  | None => ret tt
  end ;;;
  let cfg := match cfg with
             | None => empty_ConsumerConfig
             | Some cfg => cfg
             end in
  for_range (map_to_list (Queues c ctx))
    (fun kr =>
       emit (Go (QueueTask (fst kr) cfg)) ;;;
       if GetHasDeadletter cfg
       then emit (Go (DeadLetterTask (fst kr) cfg))
       else ret tt).

Definition start_consumers (ctx : context_Context) (b : Exchange) : M unit :=
  for_range (consumers b) (start_consumer ctx).

(** ** The dead-letter watchdog of one queue (lines 194-221)

    The wait on the timer is a sleep of one second.  [t.Reset] at the end of
    a turn rearms a timer that the next turn replaces, and leaves no trace. *)

Inductive DeadLetterPC : Type :=
| DLTop                      (* at [if h.shutdown] *)
| DLWait                     (* at [for !h.connected] *)
| DLAcquire                  (* the timer has fired *)
| DLDone (how : LoopCtl).    (* the goroutine is over *)

(** What the broker answers in one turn: to [h.connection.Channel()] and to
    [cfg.BuildDeadletterQueue]. *)
Record DeadLetterEnv : Type := mkDeadLetterEnv {
  dl_acquired : error + amqp_Channel;
  dl_built : option error
}.

Definition deadletter_step (key exchange_name : string) (env : DeadLetterEnv)
    (h : RabbitHost) (pc : DeadLetterPC) : list Event * DeadLetterPC :=
  match pc with
  | DLTop => if shutdown h then ([], DLDone Return) else ([], DLWait)
  | DLWait =>
      if negb (connected h) then ([Sleep 200], DLWait)
      else ([Sleep 1000], DLAcquire)
  | DLAcquire =>
      match dl_acquired env with
      | inl err =>
          ([OpenChannel; Logp ErrorLevel [LError err]; Sleep 200], DLDone Break)
      | inr dlCh =>
          (OpenChannel :: BuildDeadletterQueue key exchange_name dlCh ::
             match dl_built env with
             | Some err => [Logp ErrorLevel [LError err]]
             | None => []
             end,
           DLTop)
      end
  | DLDone how => ([], DLDone how)
  end.

(** The watchdog run along a schedule: the host and the broker's answers as
    they are at each step. *)
Fixpoint deadletter_run (key exchange_name : string)
    (schedule : list (RabbitHost * DeadLetterEnv)) (pc : DeadLetterPC)
    : list Event * DeadLetterPC :=
  match schedule with
  | [] => ([], pc)
  | (h, env) :: rest =>
      let '(evs, pc') := deadletter_step key exchange_name env h pc in
      let '(evs', pc'') := deadletter_run key exchange_name rest pc' in
      (evs ++ evs', pc'')
  end.

(** ** A queue task along a schedule

    At each step other goroutines may have changed the host first
    ([q_interfere]); then the task takes the step of its program point, with
    what the broker answers. *)
Record QueueEnv : Type := mkQueueEnv {
  q_interfere : RabbitHost -> RabbitHost;
  q_acquired : error + amqp_Channel;
  q_signal : Signal
}.

Definition queue_step (key k exchange_name : string) (cfg : ConsumerConfig)
    (env : QueueEnv) (pc : QueuePC) (h : RabbitHost)
    : RabbitHost * list Event * QueuePC :=
  match pc with
  | QueueTop => queue_top key exchange_name cfg (q_acquired env) h
  | QueueSelect => queue_select key k (q_signal env) h
  | QueueDone => (h, [], QueueDone)
  end.

Fixpoint queue_run (key k exchange_name : string) (cfg : ConsumerConfig)
    (schedule : list QueueEnv) (pc : QueuePC) (h : RabbitHost)
    : RabbitHost * list Event * QueuePC :=
  match schedule with
  | [] => (h, [], pc)
  | env :: rest =>
      let '(h', evs, pc') :=
        queue_step key k exchange_name cfg env pc (q_interfere env h) in
      let '(h'', evs', pc'') := queue_run key k exchange_name cfg rest pc' h' in
      (h'', evs ++ evs', pc'')
  end.

(** ** Shutdown *)

(** A goroutine that [h.wg] counts, where it stands when [Stop] begins to
    wait, and what it meets from there on: a queue task at a point of its
    loop with the schedule of its steps, a watchdog likewise, or a consuming
    goroutine, whose [range] over the deliveries ends when its channel is
    closed and which writes nothing to the host. *)
Inductive Waiting : Type :=
| WaitQueue (key k exchange_name : string) (cfg : ConsumerConfig)
    (pc : QueuePC) (schedule : list QueueEnv)
| WaitDeadLetter (key exchange_name : string) (pc : DeadLetterPC)
    (schedule : list (RabbitHost * DeadLetterEnv))
| WaitConsume.

(** The goroutine run along its schedule: the host it leaves if it has
    ended by then, [None] if it is still running. *)
Definition wait_for (w : Waiting) (h : RabbitHost) : option RabbitHost :=
  match w with
  | WaitQueue key k exchange_name cfg pc schedule =>
      let '(h', _, pc') := queue_run key k exchange_name cfg schedule pc h in
      match pc' with
      | QueueDone => Some h'
      | _ => None
      end
  | WaitDeadLetter key exchange_name pc schedule =>
      match snd (deadletter_run key exchange_name schedule pc) with
      | DLDone _ => Some h
      | _ => None
      end
  | WaitConsume => Some h
  end.

(** [h.wg.Wait()]: it returns once every counted goroutine has ended.
    [None]: along the schedules given one of them is still running, and
    [Wait] has not returned.  What the goroutines log meanwhile is in their
    own traces ([queue_run], [deadletter_run]). *)
Fixpoint wg_Wait (tasks : list Waiting) (h : RabbitHost) : option RabbitHost :=
  match tasks with
  | [] => Some h
  | w :: rest =>
      match wait_for w h with
      | Some h' => wg_Wait rest h'
      | None => None
      end
  end.

Definition close_registered (close_error : amqp_Channel -> option error)
    (kv : string * amqp_Channel) : list Event :=
  let '(k, v) := kv in
  Logf InfoLevel "closing channel %s" [LString k] ::
  CloseChannel v ::
  match close_error v with
  | Some err =>
      [Logf ErrorLevel "error when closing channel %s: %s" [LString k; LError err]]
  | None =>
      [Logf InfoLevel "channel for queue %s closed successfully" [LString k]]
  end.

(** [Stop].  [range_order] is the entries of [h.channels] in the order the
    [range] yields them, which Go leaves open; [close_error] is what closing
    a channel answers, [connection_close_error] what closing the connection
    answers, [others] what the other goroutines (the connection watcher) have
    written to the host by the time [Stop] begins to wait, and [tasks] the
    goroutines [h.wg] counts.  The result is the
    host [Stop] leaves and [Stop]'s own run: its trace, and the error it
    returns, or the nil dereference of [h.connection.Close()] on a host that
    has no connection.  [None]: [Stop] has not returned, [Wait] still
    waiting. *)
Definition Stop (range_order : list (string * amqp_Channel))
    (close_error : amqp_Channel -> option error)
    (connection_close_error : option error)
    (others : RabbitHost -> RabbitHost)
    (tasks : list Waiting) (h : RabbitHost)
    : option (RabbitHost * M (option error)) :=
  let h := others (set_connected false (set_shutdown true h)) in
  let closing := Logf InfoLevel "shutting down host" []
                 :: flat_map (close_registered close_error) range_order in
  match wg_Wait tasks h with
  | Some h' =>
      Some (h',
            match connection h' with
            | Some _ =>
                (closing ++ [CloseConnection;
                             Logf InfoLevel "shutdown completed" []],
                 Normal connection_close_error)
            | None => (closing, Panicked nil_dereference)
            end)
  | None => None
  end.

(** No other goroutine writes the host between the steps of this one. *)
Definition undisturbed (w : Waiting) : Prop :=
  match w with
  | WaitQueue _ _ _ _ _ schedule =>
      Forall (fun env => forall h0, q_interfere env h0 = h0) schedule
  | _ => True
  end.

(** A goroutine that ends as soon as [Stop] has set the flags and closed
    the channels: a queue task in its [select], which then receives a
    signal, a watchdog at the top of its loop, which then reads [shutdown]
    set, or a consuming goroutine. *)
Definition ends_on_stop (w : Waiting) : Prop :=
  match w with
  | WaitQueue _ _ _ _ QueueSelect (env :: rest) =>
      Forall (fun env => forall h0, q_interfere env h0 = h0) (env :: rest)
  | WaitDeadLetter _ _ DLTop ((h, _) :: rest) => shutdown h = true
  | WaitConsume => True
  | _ => False
  end.

(** ** Acknowledgement outcomes in a trace *)

Definition settles (tag : N) (e : Event) : bool :=
  match e with
  | Ack t _ => N.eqb t tag
  | Nack t _ _ => N.eqb t tag
  | _ => false
  end.

Definition outcomes (tag : N) (evs : list Event) : nat :=
  length (List.filter (settles tag) evs).

(** A computation that only emits events. *)
Definition say (evs : list Event) : M unit := (evs, Normal tt).

(** A middleware that calls the handler it wraps exactly once, on the
    delivery it was given; that apart from this call only emits events that
    are no Ack and no Nack, before the call and after it; and that ends as the
    call ended: it returns when the call has returned, and when the call
    panicked that panic goes on through it (the middleware has no panic of
    its own and no recovery), as does an exit of the process. *)
Definition transparent (mw : HostMiddleware) : Prop :=
  forall (next : HandlerFunc) ctx d,
  exists pre post ctx',
    (forall tag, outcomes tag pre = 0) /\
    (forall tag, outcomes tag post = 0) /\
    trace (mw next ctx d) = pre ++ trace (next ctx' d) ++ post /\
    result (mw next ctx d) = result (next ctx' d).

(** A run that leaves the delivery with tag [tag] settled exactly once
    once the panic wrapper is through with it: one outcome and a normal
    return, or no outcome yet and a panic on its way up. *)
Definition settled_once (tag : N) (m : M unit) : Prop :=
  (outcomes tag (trace m) = 1 /\ result m = Normal tt)
  \/ (outcomes tag (trace m) = 0 /\ exists v, result m = Panicked v).

(** A run of the business handler that returns or panics, and does not
    itself settle the delivery with tag [tag]. *)
Definition quiet {A} (tag : N) (m : M A) : Prop :=
  outcomes tag (trace m) = 0 /\ forall code, result m <> Exited code.

(** The slice [m] shows the middleware [mws], none of them nil, over an
    array with [spare] more elements, all nil: what [Middleware] makes of a
    new host's list. *)
Definition shows (m : MiddlewareList) (mws : list HostMiddleware)
    (spare : nat) : Prop :=
  arr m = (Some <$> mws) ++ replicate spare None /\ len m = length mws.

(** ** Sample values *)

Definition sample_delivery : amqp_Delivery :=
  mkDelivery "order.created" "corr-1" 7%N "{}".

Definition handler_ok : KeyHandlerFunc := fun _ _ => ret None.
Definition handler_err : KeyHandlerFunc :=
  fun _ _ => ret (Some (errors_New "boom")).
Definition handler_panic : KeyHandlerFunc :=
  fun _ _ => panic (PError (errors_New "boom")).
(** A business handler that acknowledges the delivery itself. *)
Definition handler_acks : KeyHandlerFunc :=
  fun _ d => Delivery_Ack d false ;;; ret None.

(** A middleware that logs before and after the handler it wraps. *)
Definition logging (name : string) : HostMiddleware :=
  fun next ctx d =>
    say [Logf InfoLevel "enter %s" [LString name]] ;;;
    next ctx d ;;;
    say [Logf InfoLevel "leave %s" [LString name]].

(** A middleware that filters deliveries out: it returns without calling
    the handler it wraps. *)
Definition swallowing : HostMiddleware := fun _ _ _ => ret tt.

(** A middleware that panics once the handler it wraps has returned. *)
Definition panicking_after : HostMiddleware :=
  fun next ctx d => next ctx d ;;; panic (PString "late").

(** A middleware with a recovery of its own: it stops the panic of the
    handler it wraps and returns. *)
Definition recovering : HostMiddleware :=
  fun next ctx d => defer_recover (fun _ => ret tt) (next ctx d).

Definition plain_consumer : Consumer :=
  mkConsumer (None, None) (fun _ => ∅) (fun next => next).

Definition failing_consumer : Consumer :=
  mkConsumer (None, Some (errors_New "no config")) (fun _ => ∅) (fun next => next).

Definition sample_routes (f : KeyHandlerFunc) : Routes :=
  mkRoutes ["order.created"] f.

Definition sample_host : RabbitHost :=
  new_RabbitHost (mkHostConfig "amqp://localhost:5672").

(** ** The connection watcher (lines 331-349) and [NewConsumerHost] *)

Definition double_quote : string := String (Ascii.ascii_of_nat 34) EmptyString.

(** [amqp.ErrClosed], the [*amqp.Error] with code 504; its [Error()] prints
    the code and the quoted reason. *)
Definition amqp_ErrClosed : error :=
  customError "*amqp.Error"
    ("Exception (504) Reason: " +:+ double_quote
       +:+ "channel/connection is not open" +:+ double_quote).

(** One turn of the [for] loop of [connectionLoop]: [rabbitErr] is what was
    received on [h.connectionClose] (nil when the channel was closed), and
    [dials] what the dials of [connect] answer.  [None]: the turn is not
    over, [connect] still dialling or the wait for [h.connection] still
    polling.  Subscribing to the new connection leaves no trace. *)
Definition connectionLoop_turn (rabbitErr : option error)
    (dials : list (error + amqp_Connection)) (h : RabbitHost)
    : option (RabbitHost * list Event) :=
  match rabbitErr with
  | Some rabbitErr =>
      match connect dials (set_connected false h) with
      | Some (h', evs) =>
          match connection h' with
          | Some _ =>
              Some (h',
                    Logf ErrorLevel "connection lost %s" [LString (Error rabbitErr)]
                    :: Logf InfoLevel ("connecting to %s" +:+ newline)
                         [LString (Address (c h))]
                    :: evs)
          | None => None
          end
      | None => None
      end
  | None => Some (h, [])
  end.

(** The loop along the notifications it receives, each with the answers to
    the dials it causes. *)
Fixpoint connectionLoop
    (received : list (option error * list (error + amqp_Connection)))
    (h : RabbitHost) : option (RabbitHost * list Event) :=
  match received with
  | [] => Some (h, [])
  | (rabbitErr, dials) :: rest =>
      match connectionLoop_turn rabbitErr dials h with
      | Some (h', evs) =>
          match connectionLoop rest h' with
          | Some (h'', evs') => Some (h'', evs ++ evs')
          | None => None
          end
      | None => None
      end
  end.

(** [NewConsumerHost] allocates the host, starts [connectionLoop] and sends
    it [amqp.ErrClosed]: this is the host once the loop's first turn is
    over. *)
Definition NewConsumerHost_first_turn (cfg : HostConfig)
    (dials : list (error + amqp_Connection)) : option (RabbitHost * list Event) :=
  connectionLoop_turn (Some amqp_ErrClosed) dials (new_RabbitHost cfg).

(** ** [Run], up to the wait for a signal (lines 92-105 and 228-232) *)

Inductive RunEvent : Type :=
| HostEvent (e : Event)
| BuildExchange (name : string) (ch : amqp_Channel)
| GoConsumers (name : string).    (* the goroutine of lines 107-225 *)

Inductive RunOutcome : Type :=
| RunReturned (err : error)       (* [Run] has returned [err] *)
| RunWaiting.                     (* [Run] waits for a signal, to call [Stop] *)

(** The [range] over [h.exchanges]. *)
Fixpoint Run_exchanges (ch : amqp_Channel) (xs : list Exchange)
    : list RunEvent * option error :=
  match xs with
  | [] => ([], None)
  | b :: rest =>
      match Exchange_GetName (exchange b) with
      | inr err => ([HostEvent (Logp ErrorLevel [LError err])], Some err)
      | inl n =>
          let '(evs, err) := Run_exchanges ch rest in
          (BuildExchange n ch :: GoConsumers n :: evs, err)
      end
  end.

(** [None]: [h.connection] is nil and [Run] spins on it.  [acquired] is what
    [h.connection.Channel()] answers. *)
Definition Run_start (acquired : error + amqp_Channel) (h : RabbitHost)
    : option (list RunEvent * RunOutcome) :=
  match connection h with
  | None => None
  | Some _ =>
      match acquired with
      | inl err =>
          Some ([HostEvent OpenChannel;
                 HostEvent (Logf ErrorLevel
                              "error when getting channel from connection: %v"
                              [LString (Error err)])],
                RunReturned err)
      | inr ch =>
          match Run_exchanges ch (exchanges h) with
          | (evs, Some err) => Some (HostEvent OpenChannel :: evs, RunReturned err)
          | (evs, None) =>
              Some (HostEvent OpenChannel :: evs
                      ++ [HostEvent (CloseChannel ch);
                          HostEvent (Logf InfoLevel "host started" [])],
                    RunWaiting)
          end
      end
  end.

(** The channels a trace closes, in order. *)
Definition closed_channels (evs : list Event) : list amqp_Channel :=
  omap (fun e => match e with CloseChannel ch => Some ch | _ => None end) evs.

(** The names of the exchanges whose consumers a trace of [Run] starts. *)
Definition started_exchanges (evs : list RunEvent) : list string :=
  omap (fun e => match e with GoConsumers n => Some n | _ => None end) evs.

(** The tasks a trace starts, in order. *)
Definition started_tasks (evs : list Event) : list Task :=
  omap (fun e => match e with Go t => Some t | _ => None end) evs.

Definition named_exchange (name : string) (cs : list Consumer) : Exchange :=
  mkExchange (mkExchangeConfig (inl name)) cs.

Definition sample_queues : gmap string Routes :=
  {["orders" := sample_routes handler_ok]}.

Definition sample_consumer (cfg : option ConsumerConfig) : Consumer :=
  mkConsumer (cfg, None) (fun _ => sample_queues) (fun next => next).

(** What a run on delivery [d] owes to the tag [tag]: one outcome when
    [tag] is the delivery's own, none otherwise. *)
Definition owed (tag : N) (d : amqp_Delivery) : nat :=
  if N.eqb (DeliveryTag d) tag then 1 else 0.

(** [settled_once], for every tag at once: the run on [d] has given each tag
    what it owes it and returned, or has settled nothing and is panicking. *)
Definition settled_own (d : amqp_Delivery) (m : M unit) : Prop :=
  (forall tag, outcomes tag (trace m) = owed tag d) /\ result m = Normal tt
  \/ (forall tag, outcomes tag (trace m) = 0) /\ exists v, result m = Panicked v.

(** A run of the business handler that returns or panics and settles no
    delivery at all. *)
Definition silent {A} (m : M A) : Prop :=
  (forall tag, outcomes tag (trace m) = 0) /\ forall code, result m <> Exited code.

(** Where the entry of queue [key] stands for a task at program point [pc]:
    absent at the top of the loop, present in the [select] and after the
    task has ended. *)
Definition queue_registered (key : string) (pc : QueuePC) (h : RabbitHost)
    : Prop :=
  match pc with
  | QueueTop => channels h !! key = None
  | QueueSelect | QueueDone => is_Some (channels h !! key)
  end.

(** The tasks [start_consumer] starts for a queue under config [cfg]. *)
Definition queue_tasks (cfg : ConsumerConfig) (key : string) : list Task :=
  QueueTask key cfg ::
  if GetHasDeadletter cfg then [DeadLetterTask key cfg] else [].

Definition init_ok (cn : Consumer) : Prop := snd (Init cn) = None.

(** A host in the middle of its run: connected, a broker with the sample
    consumer registered, and the task of the queue "orders" in its [select]
    on the channel it has registered. *)
Definition running_host : RabbitHost :=
  set_channels {["orders" := mkChannel 1]}
    (fst (AddBroker (mkExchangeConfig (inl "shop")) [sample_consumer None]
            (set_connection (mkConnection 1) (set_connected true sample_host)))).

Definition orders_task : Waiting :=
  WaitQueue "orders" "orders" "shop" empty_ConsumerConfig QueueSelect
    [mkQueueEnv (fun h => h) (inr (mkChannel 2)) (ChannelClosed None)].

(** The trace [connect] leaves for a dial that failed with [err], and for
    the dial that succeeded. *)
Definition dial_failure_trace (address : string) (err : error) : list Event :=
  [Dial address;
   Logp ErrorLevel [LError err];
   Logf InfoLevel ("Trying to reconnect to RabbitMQ at %s" +:+ newline)
     [LString address];
   Sleep 200].

Definition dial_success_trace (address : string) : list Event :=
  [Dial address;
   Logf InfoLevel ("connected to %s successful" +:+ newline) [LString address]].

(** * Properties *)

(** ** The effect monad *)

Lemma bind_normal {A B} (evs : list Event) (a : A) (k : A -> M B) :
  bind (evs, Normal a) k = (evs ++ trace (k a), result (k a)).
Proof. unfold bind, trace, result. by destruct (k a). Qed.

Lemma bind_panicked {A B} (evs : list Event) v (k : A -> M B) :
  bind (evs, Panicked v) k = (evs, Panicked v).
Proof. reflexivity. Qed.

Lemma bind_exited {A B} (evs : list Event) code (k : A -> M B) :
  bind (evs, Exited code) k = (evs, Exited code).
Proof. reflexivity. Qed.

Lemma outcomes_app tag (xs ys : list Event) :
  outcomes tag (xs ++ ys) = outcomes tag xs + outcomes tag ys.
Proof. unfold outcomes. by rewrite List.filter_app, length_app. Qed.

Lemma outcomes_nil tag : outcomes tag [] = 0.
Proof. reflexivity. Qed.

(** ** The panic wrapper *)

Lemma panicHandler_normal (h : HandlerFunc) ctx d evs :
  h ctx d = (evs, Normal tt) -> panicHandler h ctx d = (evs, Normal tt).
Proof.
  intros Hrun. unfold panicHandler, defer_recover. rewrite Hrun. cbn.
  by rewrite app_nil_r.
Qed.

Lemma panicHandler_exited (h : HandlerFunc) ctx d evs code :
  h ctx d = (evs, Exited code) -> panicHandler h ctx d = (evs, Exited code).
Proof. intros Hrun. unfold panicHandler, defer_recover. by rewrite Hrun. Qed.

(** C5: whatever handler [h] sits beneath the wrapper, when it panics with
    value [v] on a delivery the wrapper returns normally, having added to the
    trace the error log line with the normalised error, the debug line with
    the stack, and one Nack of the delivery with multiple=false and
    requeue=false; the normalised error is [errors.New(t)] for a string [t],
    the error itself for an error, and [errors.New("unknown error")] for
    anything else. *)
Theorem panicHandler_recovers (h : HandlerFunc) ctx d evs v :
  h ctx d = (evs, Panicked v) ->
  panicHandler h ctx d =
    (evs ++ [Logf ErrorLevel
               "panic handler recovered from unexpected panic, error: %s"
               [LError (recovered_error v)];
             Logf DebugLevel "stack: %s" [LStack];
             Nack (DeliveryTag d) false false],
     Normal tt)
  /\ (forall t, v = PString t -> recovered_error v = errors_New t)
  /\ (forall t, v = PError t -> recovered_error v = t)
  /\ (forall x, v = POther x -> recovered_error v = errors_New "unknown error").
Proof.
  intros Hrun. split.
  - unfold panicHandler, defer_recover. rewrite Hrun. reflexivity.
  - repeat split; intros ? ->; reflexivity.
Qed.

Lemma panicHandler_recovers_witness :
  panicHandler (errorHandler handler_panic) context_Background sample_delivery =
    ([Logf ErrorLevel "panic handler recovered from unexpected panic, error: %s"
        [LError (errors_New "boom")];
      Logf DebugLevel "stack: %s" [LStack];
      Nack 7 false false],
     Normal tt).
Proof.
  exact (proj1 (panicHandler_recovers (errorHandler handler_panic)
                  context_Background sample_delivery []
                  (PError (errors_New "boom")) eq_refl)).
Defined.

(** ** The error adapter *)

(** C6: the adapter calls the keyed handler; when that returns nil the
    adapter adds one Ack with multiple=false; when it returns an error the
    adapter adds the log line with routing key, correlation id and error
    text, then one Nack with multiple=false and requeue=false.  In both cases
    it returns normally. *)
Theorem errorHandler_ack_or_nack (h : KeyHandlerFunc) ctx d evs :
  (h ctx d = (evs, Normal None) ->
   errorHandler h ctx d = (evs ++ [Ack (DeliveryTag d) false], Normal tt))
  /\
  (forall err, h ctx d = (evs, Normal (Some err)) ->
   errorHandler h ctx d =
     (evs ++ [Logf InfoLevel
                "error sending message with key %s and correlationid %v. Error: %s"
                [LString (RoutingKey d); LString (CorrelationId d);
                 LString (Error err)];
              Nack (DeliveryTag d) false false],
      Normal tt)).
Proof.
  split; [intros Hrun | intros err Hrun];
    unfold errorHandler; rewrite Hrun; reflexivity.
Qed.

Lemma errorHandler_ack_or_nack_witness :
  errorHandler handler_ok context_Background sample_delivery =
    ([Ack 7 false], Normal tt)
  /\ errorHandler handler_err context_Background sample_delivery =
    ([Logf InfoLevel
        "error sending message with key %s and correlationid %v. Error: %s"
        [LString "order.created"; LString "corr-1"; LString "boom"];
      Nack 7 false false],
     Normal tt).
Proof.
  split.
  - exact (proj1 (errorHandler_ack_or_nack handler_ok context_Background
                    sample_delivery []) eq_refl).
  - exact (proj2 (errorHandler_ack_or_nack handler_err context_Background
                    sample_delivery []) (errors_New "boom") eq_refl).
Defined.

Lemma errorHandler_panicked (h : KeyHandlerFunc) ctx d evs v :
  h ctx d = (evs, Panicked v) -> errorHandler h ctx d = (evs, Panicked v).
Proof. intros Hrun. unfold errorHandler. by rewrite Hrun. Qed.

(** ** Fatal errors while starting *)

(** C8: when [Consume] answers with an error, the consuming goroutine logs
    it at the fatal level and the process exits with status 1: nothing is
    retried, no handler is built and no delivery is handled. *)
Theorem consume_error_is_fatal h c0 cfg key routes uuid err :
  consume_task h c0 cfg key routes uuid (inl err) =
    ([Consume key (GetName cfg +:+ "-" +:+ uuid) false (GetExclusive cfg) false
        (GetNoWait cfg);
      Logp FatalLevel [LError err]],
     Exited 1).
Proof. reflexivity. Qed.

Lemma for_range_exited {A} (x : A) (xs : list A) (body : A -> M unit) evs code :
  body x = (evs, Exited code) -> for_range (x :: xs) body = (evs, Exited code).
Proof. intros Hrun. cbn. by rewrite Hrun. Qed.

Lemma for_range_emit {A} (xs : list A) (e : A -> Event) :
  for_range xs (fun x => emit (e x) ;;; ret tt) = (e <$> xs, Normal tt).
Proof.
  induction xs as [|x xs IH]; [reflexivity|].
  cbn [for_range]. rewrite IH. reflexivity.
Qed.

(** C10: when [Init] returns an error the goroutine logs it at the fatal
    level and the process exits with status 1; when [Init] returns a nil
    config and a nil error, the consumer is started as if [Init] had returned
    the empty [ConsumerConfig]: one queue task per queue of the consumer,
    each with the empty config, and no dead-letter task. *)
Theorem start_consumer_init ctx (cn : Consumer) :
  (forall cfg err, Init cn = (cfg, Some err) ->
     start_consumer ctx cn = ([Logp FatalLevel [LError err]], Exited 1))
  /\
  (Init cn = (None, None) ->
     start_consumer ctx cn =
       start_consumer ctx
         (mkConsumer (Some empty_ConsumerConfig, None) (Queues cn)
            (Consumer_Middleware cn))
     /\ start_consumer ctx cn =
       ((fun kr => Go (QueueTask (fst kr) empty_ConsumerConfig))
          <$> map_to_list (Queues cn ctx),
        Normal tt)).
Proof.
  split.
  - intros cfg err Hinit. unfold start_consumer. rewrite Hinit. reflexivity.
  - intros Hinit. unfold start_consumer. rewrite Hinit. cbn [Init Queues].
    split; [reflexivity|].
    cbn [GetHasDeadletter HasDeadletter empty_ConsumerConfig].
    rewrite (for_range_emit _ (fun kr => Go (QueueTask (fst kr) empty_ConsumerConfig))).
    reflexivity.
Qed.

(** ** The connection loop *)

Lemma connect_failures_none (errs : list error) h :
  connect (inl <$> errs) h = None.
Proof.
  induction errs as [|err errs IH]; [reflexivity|].
  cbn. by rewrite IH.
Qed.

Lemma connect_failures_then (errs : list error) dials h :
  connect ((inl <$> errs) ++ dials) h =
    match connect dials h with
    | Some (h', evs) =>
        Some (h', flat_map (dial_failure_trace (Address (c h))) errs ++ evs)
    | None => None
    end.
Proof.
  induction errs as [|err errs IH]; cbn.
  - by destruct (connect dials h) as [[h' evs]|].
  - rewrite IH. by destruct (connect dials h) as [[h' evs]|].
Qed.

Lemma connect_states_failures_then (errs : list error) dials h :
  connect_states ((inl <$> errs) ++ dials) h =
    replicate (length errs) h ++ connect_states dials h.
Proof.
  induction errs as [|err errs IH]; [reflexivity|].
  cbn. by rewrite IH.
Qed.

Lemma retry_events_of_failures address (errs : list error) :
  length (List.filter is_retry_event
            (flat_map (dial_failure_trace address) errs)) = length errs.
Proof.
  induction errs as [|err errs IH]; [reflexivity|].
  cbn [flat_map]. rewrite List.filter_app, length_app, IH.
  cbn. rewrite bool_decide_eq_true_2 by reflexivity. reflexivity.
Qed.

(** C7: [connect] dials again after each failure, 200ms later, and returns
    on the first dial that succeeds and only then: as long as every dial
    fails it is still looping, and no failure ends it.  Each failed attempt
    leaves the host as it was and logs one retry; the attempt that succeeds
    sets [connected] and stores the connection.  So after [n] failures and a
    success the host has been left unchanged [n] times, then connected, with
    [n] retry lines in the log. *)
Theorem connect_until_dial_succeeds (h : RabbitHost) (errs : list error)
    (conn : amqp_Connection) (later : list (error + amqp_Connection)) :
  let dials := (inl <$> errs) ++ inr conn :: later in
  let h' := set_connection conn (set_connected true h) in
  let evs := flat_map (dial_failure_trace (Address (c h))) errs
               ++ dial_success_trace (Address (c h)) in
  connect dials h = Some (h', evs)
  /\ connect (inl <$> errs) h = None
  /\ connect_states dials h = replicate (length errs) h ++ [h']
  /\ connected h' = true /\ connection h' = Some conn
  /\ length (List.filter is_retry_event evs) = length errs
  /\ (forall err, connect_attempt (inl err) h
                  = (h, dial_failure_trace (Address (c h)) err, Continue)).
Proof.
  cbn zeta. repeat split.
  - rewrite connect_failures_then. reflexivity.
  - apply connect_failures_none.
  - rewrite connect_states_failures_then. reflexivity.
  - rewrite List.filter_app, length_app, retry_events_of_failures.
    cbn. rewrite bool_decide_eq_false_2; [cbn; lia|]. discriminate.
Qed.

(** The scenario of the specification: two dials fail, the third succeeds. *)
Example connect_third_attempt :
  let e1 := errors_New "dial tcp: connection refused" in
  let e2 := errors_New "dial tcp: i/o timeout" in
  let conn := mkConnection 1 in
  exists h' evs,
    connect [inl e1; inl e2; inr conn] sample_host = Some (h', evs)
    /\ connected <$> connect_states [inl e1; inl e2; inr conn] sample_host
       = [false; false; true]
    /\ connection h' = Some conn
    /\ length (List.filter is_retry_event evs) = 2
    /\ List.filter (fun e => match e with Sleep _ => true | _ => false end) evs
       = [Sleep 200; Sleep 200].
Proof. cbn zeta. eexists _, _. repeat split. Qed.

(** ** The dead-letter watchdog *)

Lemma deadletter_build_failure_continues key n dlCh err h :
  deadletter_step key n (mkDeadLetterEnv (inr dlCh) (Some err)) h DLAcquire =
    ([OpenChannel; BuildDeadletterQueue key n dlCh; Logp ErrorLevel [LError err]],
     DLTop).
Proof. reflexivity. Qed.

Lemma deadletter_return_needs_shutdown key n env h pc evs :
  pc <> DLDone Return ->
  deadletter_step key n env h pc = (evs, DLDone Return) -> shutdown h = true.
Proof.
  intros Hpc. destruct pc as [| | |how]; cbn.
  - destruct (shutdown h); [done|]. intros [= _ ?]; discriminate.
  - destruct (connected h); cbn; intros [= _ ?]; discriminate.
  - destruct (dl_acquired env); intros [= _ ?]; discriminate.
  - intros [= _ ->]. done.
Qed.

(** C3, at the failing input: with [shutdown] false and the host connected,
    a watchdog whose [h.connection.Channel()] call fails logs the error,
    sleeps 200ms and leaves its loop through [break]: the task is over
    although shutdown was never set. *)
Theorem deadletter_ends_on_channel_error key n (h : RabbitHost) err built :
  shutdown h = false -> connected h = true ->
  let env := mkDeadLetterEnv (inl err) built in
  deadletter_run key n [(h, env); (h, env); (h, env)] DLTop =
    ([Sleep 1000; OpenChannel; Logp ErrorLevel [LError err]; Sleep 200],
     DLDone Break).
Proof.
  intros Hshutdown Hconnected. cbn. rewrite Hshutdown. cbn.
  rewrite Hconnected. reflexivity.
Qed.

Lemma deadletter_ends_on_channel_error_witness :
  let h := set_connected true sample_host in
  let env := mkDeadLetterEnv (inl (errors_New "channel/connection is not open")) None in
  deadletter_run "orders" "shop" [(h, env); (h, env); (h, env)] DLTop =
    ([Sleep 1000; OpenChannel;
      Logp ErrorLevel [LError (errors_New "channel/connection is not open")];
      Sleep 200],
     DLDone Break).
Proof.
  exact (deadletter_ends_on_channel_error "orders" "shop"
           (set_connected true sample_host)
           (errors_New "channel/connection is not open") None eq_refl eq_refl).
Defined.

(** ** Shutdown and the channel registry *)

Lemma queue_run_cons key k n cfg env rest pc h :
  queue_run key k n cfg (env :: rest) pc h =
    let step := queue_step key k n cfg env pc (q_interfere env h) in
    let run := queue_run key k n cfg rest step.2 step.1.1 in
    (run.1.1, step.1.2 ++ run.1.2, run.2).
Proof.
  cbn [queue_run].
  destruct (queue_step key k n cfg env pc (q_interfere env h)) as [[h' evs] pc'].
  cbn. by destruct (queue_run key k n cfg rest pc' h') as [[h'' evs'] pc''].
Qed.

Lemma deadletter_run_cons key n h env rest pc :
  deadletter_run key n ((h, env) :: rest) pc =
    let step := deadletter_step key n env h pc in
    let run := deadletter_run key n rest step.2 in
    (step.1 ++ run.1, run.2).
Proof.
  cbn [deadletter_run].
  destruct (deadletter_step key n env h pc) as [evs pc']. cbn.
  by destruct (deadletter_run key n rest pc') as [evs' pc''].
Qed.

Lemma closed_channels_app (xs ys : list Event) :
  closed_channels (xs ++ ys) = closed_channels xs ++ closed_channels ys.
Proof. apply omap_app. Qed.

Lemma closed_channels_registered close_error (kvs : list (string * amqp_Channel)) :
  closed_channels (flat_map (close_registered close_error) kvs) = kvs.*2.
Proof.
  induction kvs as [|[k v] kvs IH]; [reflexivity|].
  cbn [flat_map]. rewrite closed_channels_app, IH.
  unfold close_registered. by destruct (close_error v).
Qed.

Lemma queue_select_done key k sig h h' evs :
  queue_select key k sig h = (h', evs, QueueDone) ->
  shutdown h = true /\ h' = h /\ evs = [].
Proof.
  unfold queue_select.
  destruct sig as [queueErr|tag]; destruct (shutdown h);
    intros [= <- <-]; done.
Qed.

Lemma queue_select_again key k sig h h' evs :
  queue_select key k sig h = (h', evs, QueueTop) ->
  shutdown h = false /\ channels h' = delete key (channels h).
Proof.
  unfold queue_select.
  destruct sig as [queueErr|tag]; destruct (shutdown h);
    intros [= <- _]; done.
Qed.

Lemma queue_select_shutdown key k sig h :
  shutdown h = true -> queue_select key k sig h = (h, [], QueueDone).
Proof. intros Hs. unfold queue_select. destruct sig; by rewrite Hs. Qed.

(** On a stopped host ([shutdown] set, [connected] false) that nobody else
    writes, a queue task writes nothing: at the top of its loop it stays
    there, in its [select] it ends at its first step, and once it has ended
    it has ended. *)
Lemma queue_run_stopped key k n cfg schedule pc h :
  shutdown h = true -> connected h = false ->
  Forall (fun env => forall h0, q_interfere env h0 = h0) schedule ->
  (queue_run key k n cfg schedule pc h).1.1 = h
  /\ (pc = QueueTop -> (queue_run key k n cfg schedule pc h).2 = QueueTop)
  /\ (pc = QueueDone -> (queue_run key k n cfg schedule pc h).2 = QueueDone)
  /\ (pc = QueueSelect -> schedule <> [] ->
      (queue_run key k n cfg schedule pc h).2 = QueueDone).
Proof.
  intros Hs Hc Hsched. revert pc.
  induction Hsched as [|env rest Henv _ IH]; intros pc; [done|].
  rewrite queue_run_cons. cbn zeta. rewrite Henv.
  destruct pc; cbn [queue_step].
  - unfold queue_top. rewrite Hc. cbn [negb fst snd].
    destruct (IH QueueTop) as (-> & Htop & _). rewrite Htop by done. done.
  - rewrite (queue_select_shutdown _ _ _ _ Hs). cbn [fst snd].
    destruct (IH QueueDone) as (-> & _ & Hdone & _). rewrite Hdone by done. done.
  - cbn [fst snd].
    destruct (IH QueueDone) as (-> & _ & Hdone & _). rewrite Hdone by done. done.
Qed.

Lemma deadletter_run_done key n schedule how :
  deadletter_run key n schedule (DLDone how) = ([], DLDone how).
Proof.
  induction schedule as [|[h env] rest IH]; [reflexivity|].
  rewrite deadletter_run_cons. cbn. by rewrite IH.
Qed.

Lemma wait_for_stopped (w : Waiting) h h' :
  shutdown h = true -> connected h = false -> undisturbed w ->
  wait_for w h = Some h' -> h' = h.
Proof.
  intros Hs Hc Hw. destruct w as [key k n cfg pc schedule|key n pc schedule|]; cbn.
  - pose proof (queue_run_stopped key k n cfg schedule pc h Hs Hc Hw) as [Hh _].
    destruct (queue_run key k n cfg schedule pc h) as [[h1 evs] pc1].
    cbn in Hh. subst h1. by destruct pc1; intros [= <-].
  - by destruct (deadletter_run key n schedule pc).2; intros [= <-].
  - by intros [= <-].
Qed.

Lemma wg_Wait_stopped tasks h h' :
  shutdown h = true -> connected h = false -> Forall undisturbed tasks ->
  wg_Wait tasks h = Some h' -> h' = h.
Proof.
  intros Hs Hc Htasks. revert h'.
  induction Htasks as [|w rest Hw _ IH]; intros h'; cbn; [by intros [= <-]|].
  destruct (wait_for w h) as [h1|] eqn:Hwait; [|discriminate].
  apply (wait_for_stopped w h h1 Hs Hc Hw) in Hwait as ->. apply IH.
Qed.

Lemma wait_for_ends_on_stop (w : Waiting) h :
  shutdown h = true -> connected h = false -> ends_on_stop w ->
  wait_for w h = Some h.
Proof.
  intros Hs Hc Hw. destruct w as [key k n cfg pc schedule|key n pc schedule|];
    cbn in *; [| |done].
  - destruct pc; try done. destruct schedule as [|env rest]; [done|].
    pose proof (queue_run_stopped key k n cfg (env :: rest) QueueSelect h Hs Hc Hw)
      as (Hh & _ & _ & Hdone).
    destruct (queue_run key k n cfg (env :: rest) QueueSelect h) as [[h1 evs] pc1].
    cbn in Hh, Hdone. subst h1. by rewrite Hdone.
  - destruct pc; try done. destruct schedule as [|[h0 env] rest]; [done|].
    rewrite deadletter_run_cons. cbn. rewrite Hw. cbn.
    by rewrite deadletter_run_done.
Qed.


Lemma Stop_closing_closed close_error range_order (tail : list Event) :
  closed_channels
    (Logf InfoLevel "shutting down host" []
     :: flat_map (close_registered close_error) range_order ++ tail)
  = range_order.*2 ++ closed_channels tail.
Proof.
  change (closed_channels
            ([Logf InfoLevel "shutting down host" []]
               ++ flat_map (close_registered close_error) range_order ++ tail)
          = range_order.*2 ++ closed_channels tail).
  by rewrite !closed_channels_app, closed_channels_registered.
Qed.

(** C2, as the code has it.  Take a call of [Stop] that returns, with no
    other goroutine writing the host meanwhile.  Then
    [GetConnectionStatus()] is false and [shutdown] is set; [Stop] has closed
    the channel of every entry of the registry, one close per entry and no
    other channel; and the registry holds exactly the entries it held when
    [Stop] was called.  On a host with a connection [Stop] returns what
    closing the connection answered.  A queue task ends only when its
    [select] fires with [shutdown] set, and then leaves the registry as it
    is; the entry of a queue is deleted only by a task that goes back to the
    top of its loop, with [shutdown] false. *)
Theorem Stop_keeps_registry range_order close_error connection_close_error
    others tasks (h h' : RabbitHost) (r : M (option error)) :
  range_order ≡ₚ map_to_list (channels h) ->
  (forall h0, others h0 = h0) ->
  Forall undisturbed tasks ->
  Stop range_order close_error connection_close_error others tasks h
    = Some (h', r) ->
  (GetConnectionStatus h' = false
   /\ shutdown h' = true
   /\ channels h' = channels h)
  /\ closed_channels (trace r) ≡ₚ (map_to_list (channels h)).*2
  /\ (is_Some (connection h) -> result r = Normal connection_close_error)
  /\ (forall key k sig h0 h1 evs,
        queue_select key k sig h0 = (h1, evs, QueueDone) ->
        shutdown h0 = true /\ channels h1 = channels h0)
  /\ (forall key k sig h0 h1 evs,
        queue_select key k sig h0 = (h1, evs, QueueTop) ->
        shutdown h0 = false /\ channels h1 = delete key (channels h0)).
Proof.
  intros Hperm Hothers Htasks. unfold Stop. rewrite Hothers.
  destruct (wg_Wait tasks (set_connected false (set_shutdown true h)))
    as [h1|] eqn:Hwait; [|discriminate].
  apply wg_Wait_stopped in Hwait as ->; [|reflexivity|reflexivity|exact Htasks].
  intros [= <- <-]. cbn [connection set_connected set_shutdown].
  split; [done|]. split; [|split; [|split]].
  - destruct (connection h); cbn [trace fst].
    + rewrite Stop_closing_closed. cbn. by rewrite app_nil_r, Hperm.
    + rewrite <- (app_nil_r (flat_map _ _)), Stop_closing_closed.
      cbn. by rewrite app_nil_r, Hperm.
  - intros [conn ->]. reflexivity.
  - intros key k sig h0 h1 evs Hstep.
    apply queue_select_done in Hstep as (Hs & -> & _). done.
  - intros key k sig h0 h1 evs Hstep. by apply queue_select_again in Hstep.
Qed.

Lemma Stop_keeps_registry_witness :
  let h' := set_connected false (set_shutdown true running_host) in
  let r : M (option error) :=
    ([Logf InfoLevel "shutting down host" [];
      Logf InfoLevel "closing channel %s" [LString "orders"];
      CloseChannel (mkChannel 1);
      Logf InfoLevel "channel for queue %s closed successfully" [LString "orders"];
      CloseConnection;
      Logf InfoLevel "shutdown completed" []],
     Normal None) in
  (GetConnectionStatus h' = false
   /\ shutdown h' = true
   /\ channels h' = channels running_host)
  /\ closed_channels (trace r) ≡ₚ (map_to_list (channels running_host)).*2
  /\ (is_Some (connection running_host) -> result r = Normal None).
Proof.
  cbn zeta.
  destruct (Stop_keeps_registry [("orders", mkChannel 1)] (fun _ => None) None
              (fun h0 => h0) [orders_task] running_host
              (set_connected false (set_shutdown true running_host))
              ([Logf InfoLevel "shutting down host" [];
                Logf InfoLevel "closing channel %s" [LString "orders"];
                CloseChannel (mkChannel 1);
                Logf InfoLevel "channel for queue %s closed successfully"
                  [LString "orders"];
                CloseConnection;
                Logf InfoLevel "shutdown completed" []],
               Normal None))
    as (Hhost & Hclosed & Hresult & _).
  - exact (Permutation_refl _).
  - reflexivity.
  - repeat constructor.
  - reflexivity.
  - exact (conj Hhost (conj Hclosed Hresult)).
Defined.

(** C2, as stated, fails: a running host, connected, with the channel of
    the queue "orders" registered and the task of that queue in its
    [select], is stopped.  [Stop] closes the channel and the connection and
    returns; the task has met [shutdown] set in its [select] and has ended;
    and the entry of "orders" is still in the registry. *)
Lemma Stop_leaves_registry_entries :
  exists h' r,
    Stop [("orders", mkChannel 1)] (fun _ => None) None (fun h0 => h0)
      [orders_task] running_host = Some (h', r)
    /\ connection running_host = Some (mkConnection 1)
    /\ result r = Normal None
    /\ closed_channels (trace r) = [mkChannel 1]
    /\ GetConnectionStatus h' = false
    /\ channels h' !! "orders" = Some (mkChannel 1)
    /\ channels h' <> ∅
    /\ queue_run "orders" "orders" "shop" empty_ConsumerConfig
         [mkQueueEnv (fun h => h) (inr (mkChannel 2)) (ChannelClosed None)]
         QueueSelect (set_connected false (set_shutdown true running_host))
       = (set_connected false (set_shutdown true running_host), [], QueueDone).
Proof.
  eexists _, _. split; [reflexivity|]. cbn.
  split; [reflexivity|]. split; [reflexivity|]. split; [reflexivity|].
  split; [reflexivity|]. split; [apply lookup_singleton_eq|].
  split; [apply insert_non_empty|reflexivity].
Qed.

(** Why the other goroutines must keep still: the connection watcher does
    not look at [shutdown].  When [connect] gets through while [Stop] runs
    and writes [connected] and [connection] (lines 319-320), [Stop] returns
    on a host whose [GetConnectionStatus()] is true. *)
Example watcher_reconnects_stopped_host :
  let h := set_connection (mkConnection 1) (set_connected true sample_host) in
  let watcher := fun h0 => set_connection (mkConnection 2) (set_connected true h0) in
  exists h' r,
    Stop [] (fun _ => None) None watcher [] h = Some (h', r)
    /\ result r = Normal None
    /\ shutdown h' = true
    /\ GetConnectionStatus h' = true.
Proof. cbn zeta. eexists _, _. repeat split. Qed.

(** ** The middleware chain *)

(** The capacities [append] gives a list of functions as it grows. *)
Example growslice_cap_small :
  growslice_cap 0 1 = 1 /\ growslice_cap 1 2 = 2 /\ growslice_cap 2 3 = 4
  /\ growslice_cap 0 2 = 2 /\ growslice_cap 0 3 = 3 /\ growslice_cap 0 5 = 6
  /\ growslice_cap 4 5 = 8 /\ growslice_cap 8 9 = 16.
Proof. vm_compute. repeat split. Qed.

Lemma buildChain_empty f (m : MiddlewareList) :
  len m = 0 -> buildChain f m = Normal f.
Proof. unfold buildChain. intros ->. by destruct (arr m). Qed.

(** The equation of the source: [m[0](h.buildChain(f, m[1:cap(m)]))]. *)
Lemma buildChain_unfold f (m : MiddlewareList) :
  slice_wf m -> len m <> 0 ->
  exists m0 rest,
    index m 0 = Some m0 /\ reslice m 1 (cap m) = Some rest
    /\ buildChain f m = res_bind (buildChain f rest) (call m0).
Proof.
  unfold slice_wf, cap, index, reslice, buildChain.
  destruct m as [a n]; cbn. intros Hwf Hn.
  destruct a as [|m0 rest]; cbn in *; [lia|].
  exists m0, (mkSlice rest (length rest)).
  rewrite decide_True by lia. rewrite decide_True by lia.
  cbn. rewrite Nat.sub_0_r. repeat split.
  destruct n; [done|reflexivity].
Qed.

Lemma buildChain_from_full f (mws : list HostMiddleware) :
  buildChain_from f (Some <$> mws) (length mws) = Normal (nest mws f).
Proof.
  induction mws as [|mw mws IH]; [reflexivity|].
  cbn. rewrite length_fmap, IH. reflexivity.
Qed.

Lemma buildChain_from_nils f spare n :
  0 < spare -> 0 < n ->
  buildChain_from f (replicate spare None) n = Panicked nil_dereference.
Proof.
  revert n. induction spare as [|spare IH]; intros n Hspare Hn; [lia|].
  destruct n; [lia|]. cbn. rewrite length_replicate.
  destruct spare as [|spare]; [reflexivity|].
  rewrite IH by lia. reflexivity.
Qed.

Lemma buildChain_from_spare f (mws : list HostMiddleware) spare n :
  0 < spare -> 0 < n ->
  buildChain_from f ((Some <$> mws) ++ replicate spare None) n
    = Panicked nil_dereference.
Proof.
  revert n. induction mws as [|mw mws IH]; intros n Hspare Hn.
  - by apply buildChain_from_nils.
  - destruct n; [lia|]. cbn.
    rewrite IH; [reflexivity|done|].
    rewrite length_app, length_replicate. lia.
Qed.

(** C9: [buildChain(f, m)] is [f] when [len(m)] is 0, and otherwise
    [m[0]] called on the chain built over [m[1:cap(m)]].  For a slice that
    shows the registered middleware [mws], none of them nil, over an array
    whose spare elements are nil: when the capacity equals the length the
    chain is the nesting of [mws] in order, first outermost; when the slice
    is not empty and the capacity is larger, building the chain calls a nil
    function and panics. *)
Theorem buildChain_bounded_by_capacity f (m : MiddlewareList)
    (mws : list HostMiddleware) (spare : nat) :
  arr m = (Some <$> mws) ++ replicate spare None ->
  len m = length mws ->
  (len m = 0 -> buildChain f m = Normal f)
  /\ (len m <> 0 ->
      exists m0 rest,
        index m 0 = Some m0 /\ reslice m 1 (cap m) = Some rest
        /\ buildChain f m = res_bind (buildChain f rest) (call m0))
  /\ (cap m = len m -> buildChain f m = Normal (nest mws f))
  /\ (len m <> 0 -> cap m <> len m ->
      buildChain f m = Panicked nil_dereference).
Proof.
  intros Harr Hlen.
  assert (Hcap : cap m = length mws + spare).
  { unfold cap. by rewrite Harr, length_app, length_fmap, length_replicate. }
  repeat split.
  - apply buildChain_empty.
  - apply buildChain_unfold. unfold slice_wf. lia.
  - intros Heq. assert (spare = 0) as -> by lia.
    unfold buildChain. rewrite Harr, Hlen. cbn [replicate].
    rewrite app_nil_r. apply buildChain_from_full.
  - intros Hne Hneq. unfold buildChain. rewrite Harr.
    apply buildChain_from_spare; lia.
Qed.

Lemma buildChain_bounded_by_capacity_witness :
  buildChain (errorHandler handler_ok)
    (mkSlice [Some (logging "A"); Some (logging "B")] 2)
    = Normal (nest [logging "A"; logging "B"] (errorHandler handler_ok))
  /\ buildChain (errorHandler handler_ok)
       (mkSlice [Some (logging "A"); Some (logging "B"); Some (logging "C"); None] 3)
     = Panicked nil_dereference.
Proof.
  split.
  - apply (buildChain_bounded_by_capacity (errorHandler handler_ok)
             (mkSlice [Some (logging "A"); Some (logging "B")] 2)
             [logging "A"; logging "B"] 0 eq_refl eq_refl).
    reflexivity.
  - apply (buildChain_bounded_by_capacity (errorHandler handler_ok)
             (mkSlice [Some (logging "A"); Some (logging "B");
                       Some (logging "C"); None] 3)
             [logging "A"; logging "B"; logging "C"] 1 eq_refl eq_refl);
      discriminate.
Defined.

Lemma buildChain_shows f (m : MiddlewareList) mws spare :
  shows m mws spare ->
  (mws = [] \/ spare = 0) /\ buildChain f m = Normal (nest mws f)
  \/ (mws <> [] /\ spare <> 0) /\ buildChain f m = Panicked nil_dereference.
Proof.
  intros [Harr Hlen]. unfold buildChain. rewrite Harr, Hlen.
  destruct mws as [|mw mws].
  - left. split; [by left|]. cbn. by destruct (replicate spare None).
  - destruct spare as [|spare].
    + left. split; [by right|]. cbn [replicate]. rewrite app_nil_r.
      apply buildChain_from_full.
    + right. split; [done|]. apply buildChain_from_spare; cbn; lia.
Qed.

(** [Middleware] keeps the list in that shape when the functions it is
    given are not nil. *)
Lemma Middleware_shows (fn : list HostMiddleware) h mws spare :
  shows (middleware h) mws spare ->
  exists spare', shows (middleware (Middleware (Some <$> fn) h)) (mws ++ fn) spare'.
Proof.
  intros [Harr Hlen]. unfold Middleware, append, shows. cbn.
  assert (Hcap : cap (middleware h) = length mws + spare).
  { unfold cap. by rewrite Harr, length_app, length_fmap, length_replicate. }
  assert (Htake : take (len (middleware h)) (arr (middleware h)) = Some <$> mws).
  { rewrite Harr, Hlen, take_app_le by (rewrite length_fmap; lia).
    apply firstn_all2. rewrite length_fmap. lia. }
  rewrite length_fmap, Hcap, Hlen.
  destruct (decide (length mws + length fn <= length mws + spare)) as [Hfit|Hgrow];
    cbn; rewrite <- Hlen, Htake, Hlen.
  - exists (spare - length fn).
    rewrite Harr, drop_app_ge by (rewrite length_fmap; lia).
    rewrite length_fmap, drop_replicate, fmap_app, length_app, <- app_assoc.
    split; [|done]. do 3 f_equal. lia.
  - eexists. rewrite fmap_app, length_app, <- app_assoc. split; reflexivity.
Qed.

Lemma new_RabbitHost_shows cfg : shows (middleware (new_RabbitHost cfg)) [] 0.
Proof. split; reflexivity. Qed.

(** Two middleware, registered in one call or in two: the chain is built,
    the first registered outermost. *)
Lemma Middleware_two_in_order (A B : HostMiddleware) f cfg :
  buildChain f (middleware (Middleware [Some A; Some B] (new_RabbitHost cfg)))
    = Normal (A (B f))
  /\ buildChain f (middleware (Middleware [Some B]
                                 (Middleware [Some A] (new_RabbitHost cfg))))
    = Normal (A (B f)).
Proof. split; reflexivity. Qed.

Example logging_two_in_order :
  exists chain,
    buildChain (errorHandler handler_ok)
      (middleware (Middleware [Some (logging "B")]
                     (Middleware [Some (logging "A")] sample_host)))
      = Normal chain
    /\ trace (chain context_Background sample_delivery)
       = [Logf InfoLevel "enter %s" [LString "A"];
          Logf InfoLevel "enter %s" [LString "B"];
          Ack 7 false;
          Logf InfoLevel "leave %s" [LString "B"];
          Logf InfoLevel "leave %s" [LString "A"]].
Proof. eexists. split; reflexivity. Qed.

(** C4, at the failing input: three middleware registered by three calls of
    [Middleware] on a new host leave a list of length 3 in an array of
    capacity 4, and [buildChain] on it, going down to the capacity, calls the
    nil fourth element: no chain is built, and the goroutine that was to
    consume ends in that panic before it handles a delivery. *)
Theorem Middleware_three_registrations (A B C : HostMiddleware) f cfg
    cn ccfg key routes uuid msgs :
  let h := Middleware [Some C]
             (Middleware [Some B] (Middleware [Some A] (new_RabbitHost cfg))) in
  len (middleware h) = 3
  /\ cap (middleware h) = 4
  /\ arr (middleware h) = [Some A; Some B; Some C; None]
  /\ buildChain f (middleware h) = Panicked nil_dereference
  /\ result (consume_task h cn ccfg key routes uuid (inr msgs))
     = Panicked nil_dereference.
Proof. cbn zeta. repeat split. Qed.

Lemma start_consumer_init_witness :
  start_consumer context_Background failing_consumer
    = ([Logp FatalLevel [LError (errors_New "no config")]], Exited 1)
  /\ (start_consumer context_Background (sample_consumer None)
      = start_consumer context_Background
          (sample_consumer (Some empty_ConsumerConfig))
      /\ start_consumer context_Background (sample_consumer None)
        = ([Go (QueueTask "orders" empty_ConsumerConfig)], Normal tt)).
Proof.
  split.
  - exact (proj1 (start_consumer_init context_Background failing_consumer)
             None (errors_New "no config") eq_refl).
  - exact (proj2 (start_consumer_init context_Background (sample_consumer None))
             eq_refl).
Defined.

(** ** One outcome per delivery *)

#[local] Arguments outcomes : simpl never.

Lemma settles_own_Ack d multiple :
  settles (DeliveryTag d) (Ack (DeliveryTag d) multiple) = true.
Proof. apply N.eqb_refl. Qed.

Lemma settles_own_Nack d multiple requeue :
  settles (DeliveryTag d) (Nack (DeliveryTag d) multiple requeue) = true.
Proof. apply N.eqb_refl. Qed.

Lemma errorHandler_settled_once (f : KeyHandlerFunc) ctx d :
  quiet (DeliveryTag d) (f ctx d) ->
  settled_once (DeliveryTag d) (errorHandler f ctx d).
Proof.
  unfold quiet, settled_once, errorHandler.
  destruct (f ctx d) as [evs [[err|]|v|code]]; cbn; intros [Hquiet Hexit].
  - left. rewrite outcomes_app, Hquiet. unfold outcomes. cbn.
    rewrite N.eqb_refl. done.
  - left. rewrite outcomes_app, Hquiet. unfold outcomes. cbn.
    rewrite N.eqb_refl. done.
  - right. eauto.
  - by destruct (Hexit code).
Qed.

Lemma transparent_settled_once (mw : HostMiddleware) (next : HandlerFunc) tag d :
  transparent mw ->
  (forall ctx, settled_once tag (next ctx d)) ->
  forall ctx, settled_once tag (mw next ctx d).
Proof.
  intros Hmw Hnext ctx.
  destruct (Hmw next ctx d) as (pre & post & ctx' & Hpre & Hpost & Htrace & Hres).
  specialize (Hnext ctx'). unfold settled_once in *.
  rewrite Htrace, Hres, !outcomes_app, Hpre, Hpost.
  destruct Hnext as [[-> Hr]|[-> Hr]]; [left|right]; done.
Qed.

Lemma nest_settled_once (mws : list HostMiddleware) (f : HandlerFunc) tag d :
  Forall transparent mws ->
  (forall ctx, settled_once tag (f ctx d)) ->
  forall ctx, settled_once tag (nest mws f ctx d).
Proof.
  induction 1 as [|mw mws Hmw _ IH]; intros Hf; [exact Hf|].
  cbn [nest]. apply transparent_settled_once; auto.
Qed.

Lemma panicHandler_settles (h : HandlerFunc) ctx d :
  settled_once (DeliveryTag d) (h ctx d) ->
  outcomes (DeliveryTag d) (trace (panicHandler h ctx d)) = 1
  /\ result (panicHandler h ctx d) = Normal tt.
Proof.
  unfold settled_once, panicHandler, defer_recover.
  destruct (h ctx d) as [evs r]. cbn.
  intros [[Hone ->]|[Hnone [v ->]]]; cbn.
  - by rewrite app_nil_r.
  - rewrite outcomes_app, Hnone. unfold outcomes. cbn.
    rewrite N.eqb_refl. done.
Qed.

Lemma logging_transparent name : transparent (logging name).
Proof.
  intros next ctx d. unfold logging, say, bind.
  destruct (next ctx d) as [evs [[]|v|code]] eqn:Hnext.
  - exists [Logf InfoLevel "enter %s" [LString name]],
           [Logf InfoLevel "leave %s" [LString name]], ctx.
    rewrite Hnext. by repeat split.
  - exists [Logf InfoLevel "enter %s" [LString name]], [], ctx.
    rewrite Hnext. cbn. rewrite app_nil_r. by repeat split.
  - exists [Logf InfoLevel "enter %s" [LString name]], [], ctx.
    rewrite Hnext. cbn. rewrite app_nil_r. by repeat split.
Qed.

Lemma identity_transparent : transparent (fun next => next).
Proof.
  intros next ctx d. exists [], [], ctx. cbn. rewrite app_nil_r. by repeat split.
Qed.

(** The three middleware of the counterexample are not [transparent]: the
    first makes no call, the second ends in a panic of its own, the third
    stops the panic of the handler it wraps. *)
Lemma swallowing_not_transparent : ~ transparent swallowing.
Proof.
  intros Hmw.
  destruct (Hmw (errorHandler handler_ok) context_Background sample_delivery)
    as (pre & post & ctx' & _ & _ & Htrace & _).
  cbn in Htrace. by destruct pre.
Qed.

Lemma panicking_after_not_transparent : ~ transparent panicking_after.
Proof.
  intros Hmw.
  destruct (Hmw (errorHandler handler_ok) context_Background sample_delivery)
    as (pre & post & ctx' & _ & _ & _ & Hres).
  discriminate Hres.
Qed.

Lemma recovering_not_transparent : ~ transparent recovering.
Proof.
  intros Hmw.
  destruct (Hmw (errorHandler handler_panic) context_Background sample_delivery)
    as (pre & post & ctx' & _ & _ & _ & Hres).
  discriminate Hres.
Qed.

(** C1, as the code has it: take a pipeline that was built, whose host
    middleware and consumer middleware are all [transparent] (each calls the
    handler it wraps exactly once, on the same delivery; apart from that call
    it only emits events that are no Ack and no Nack; and it ends as the call
    ended, returning when the call returned and letting its panic through,
    with no panic of its own and no recovery), around a business handler
    that does not settle the delivery itself.  Then, whether the business
    handler returns nil, returns an error or panics, the trace of the
    pipeline on a delivery holds exactly one Ack or Nack of that delivery,
    and the pipeline returns normally. *)
Theorem pipeline_settles_once (m : MiddlewareList) (mws : list HostMiddleware)
    spare (cn : Consumer) (routes : Routes) (handler : HandlerFunc) ctx d :
  shows m mws spare ->
  pipeline m cn routes = Normal handler ->
  Forall transparent mws ->
  transparent (Consumer_Middleware cn) ->
  (forall ctx', quiet (DeliveryTag d) (DeliveryFunc routes ctx' d)) ->
  outcomes (DeliveryTag d) (trace (handler ctx d)) = 1
  /\ result (handler ctx d) = Normal tt.
Proof.
  intros Hshows Hbuilt Hhost Hconsumer Hquiet. unfold pipeline in Hbuilt.
  destruct (buildChain_shows
              (Consumer_Middleware cn (errorHandler (DeliveryFunc routes)))
              m mws spare Hshows) as [[_ Hchain]|[_ Hchain]];
    rewrite Hchain in Hbuilt; [|discriminate].
  injection Hbuilt as <-.
  apply panicHandler_settles, nest_settled_once; [done|].
  apply transparent_settled_once; [done|].
  intros ctx'. by apply errorHandler_settled_once.
Qed.

Lemma pipeline_settles_once_witness :
  let handler :=
    panicHandler (nest [logging "A"; logging "B"] (errorHandler handler_panic)) in
  outcomes 7 (trace (handler context_Background sample_delivery)) = 1
  /\ result (handler context_Background sample_delivery) = Normal tt.
Proof.
  refine (pipeline_settles_once
            (mkSlice [Some (logging "A"); Some (logging "B")] 2)
            [logging "A"; logging "B"] 0 plain_consumer
            (sample_routes handler_panic) _ context_Background sample_delivery
            (conj eq_refl eq_refl) eq_refl _ _ _).
  - repeat constructor; apply logging_transparent.
  - apply identity_transparent.
  - intros ctx'. split; [reflexivity|discriminate].
Defined.

(** C1, as stated, fails.  Without any middleware, a business handler that
    acknowledges the delivery and returns nil has it acknowledged twice.
    With a host middleware that filters deliveries out, a delivery whose
    business handler would return nil gets no outcome at all.  With one that
    calls the handler it wraps once and emits nothing, but panics after that
    call has returned, the delivery is acknowledged by the adapter and then
    negatively acknowledged by the panic wrapper.  With one that calls the
    handler it wraps once and emits nothing, but recovers its panic, a
    delivery whose business handler panics gets no outcome at all. *)
Lemma pipeline_outcomes_not_one :
  (exists handler,
     pipeline (middleware sample_host) plain_consumer (sample_routes handler_acks)
       = Normal handler
     /\ handler context_Background sample_delivery
        = ([Ack 7 false; Ack 7 false], Normal tt)
     /\ outcomes (DeliveryTag sample_delivery)
          (trace (handler context_Background sample_delivery)) = 2)
  /\
  (exists handler,
     pipeline (middleware (Middleware [Some swallowing] sample_host))
       plain_consumer (sample_routes handler_ok) = Normal handler
     /\ handler context_Background sample_delivery = ([], Normal tt)
     /\ outcomes (DeliveryTag sample_delivery)
          (trace (handler context_Background sample_delivery)) = 0)
  /\
  (exists handler,
     pipeline (middleware (Middleware [Some panicking_after] sample_host))
       plain_consumer (sample_routes handler_ok) = Normal handler
     /\ List.filter (settles 7) (trace (handler context_Background sample_delivery))
        = [Ack 7 false; Nack 7 false false]
     /\ outcomes (DeliveryTag sample_delivery)
          (trace (handler context_Background sample_delivery)) = 2)
  /\
  (exists handler,
     pipeline (middleware (Middleware [Some recovering] sample_host))
       plain_consumer (sample_routes handler_panic) = Normal handler
     /\ handler context_Background sample_delivery = ([], Normal tt)
     /\ outcomes (DeliveryTag sample_delivery)
          (trace (handler context_Background sample_delivery)) = 0).
Proof. repeat apply conj; eexists; repeat split. Qed.

(** * Further properties of the host *)

(** ** The consuming loop *)

(** X1: the panic wrapper changes nothing in a run that does not panic (same
    trace, same result: it adds no log line and no Nack), and whatever the
    handler it wraps does, the wrapper itself never ends in a panic. *)
Theorem panicHandler_contains (h : HandlerFunc) ctx d :
  ((forall v, result (h ctx d) <> Panicked v) ->
   panicHandler h ctx d = h ctx d)
  /\ (forall v, result (panicHandler h ctx d) <> Panicked v).
Proof.
  unfold panicHandler, defer_recover.
  destruct (h ctx d) as [evs [[]|v|code]]; cbn; split; try done.
  - intros _. by rewrite app_nil_r.
  - intros Hno. by destruct (Hno v).
Qed.

Lemma for_range_normal {A} (xs : list A) (body : A -> M unit) :
  (forall x, x ∈ xs -> result (body x) = Normal tt) ->
  for_range xs body = (flat_map (fun x => trace (body x)) xs, Normal tt).
Proof.
  induction xs as [|x xs IH]; intros Hbody; [reflexivity|].
  cbn [for_range flat_map].
  pose proof (Hbody x (list_elem_of_here _ _)) as Hx.
  destruct (body x) as [evs r]. cbn in Hx. subst r.
  rewrite bind_normal, IH; [reflexivity|].
  intros y Hy. apply Hbody. by apply list_elem_of_further.
Qed.

Lemma panicHandler_result (h : HandlerFunc) ctx d :
  (forall code, result (h ctx d) <> Exited code) ->
  result (panicHandler h ctx d) = Normal tt.
Proof.
  unfold panicHandler, defer_recover.
  destruct (h ctx d) as [evs [[]|v|code]]; cbn; intros Hno; try done.
  by destruct (Hno code).
Qed.

(** X2: once [Consume] has answered and the chain is built, the consuming
    goroutine handles every delivery that arrives, in order of arrival, each
    through the panic wrapper, and returns when the deliveries end: a
    delivery whose handling panics does not keep the later ones from being
    handled (provided no handler ends the process). *)
Theorem consume_task_handles_all h cn cfg key routes uuid msgs
    (chain : HandlerFunc) :
  buildChain (Consumer_Middleware cn (errorHandler (DeliveryFunc routes)))
    (middleware h) = Normal chain ->
  (forall d code, result (chain context_Background d) <> Exited code) ->
  consume_task h cn cfg key routes uuid (inr msgs) =
    (Consume key (GetName cfg +:+ "-" +:+ uuid) false (GetExclusive cfg) false
       (GetNoWait cfg)
     :: flat_map (fun d => trace (panicHandler chain context_Background d)) msgs,
     Normal tt).
Proof.
  intros Hchain Hno. unfold consume_task. rewrite Hchain.
  unfold lift, emit, bind.
  rewrite (for_range_normal msgs (fun d => panicHandler chain context_Background d)).
  - reflexivity.
  - intros d _. by apply panicHandler_result.
Qed.

Lemma consume_task_handles_all_witness :
  consume_task sample_host plain_consumer empty_ConsumerConfig "orders"
    (sample_routes handler_panic) "u1"
    (inr [sample_delivery; mkDelivery "order.paid" "corr-2" 8 "{}"]) =
    ([Consume "orders" "-u1" false false false false;
      Logf ErrorLevel "panic handler recovered from unexpected panic, error: %s"
        [LError (errors_New "boom")];
      Logf DebugLevel "stack: %s" [LStack];
      Nack 7 false false;
      Logf ErrorLevel "panic handler recovered from unexpected panic, error: %s"
        [LError (errors_New "boom")];
      Logf DebugLevel "stack: %s" [LStack];
      Nack 8 false false],
     Normal tt).
Proof.
  refine (consume_task_handles_all sample_host plain_consumer
            empty_ConsumerConfig "orders" (sample_routes handler_panic) "u1"
            [sample_delivery; mkDelivery "order.paid" "corr-2" 8 "{}"]
            (errorHandler handler_panic) eq_refl _).
  intros d code. discriminate.
Defined.

Lemma errorHandler_settled_own (f : KeyHandlerFunc) ctx d :
  silent (f ctx d) -> settled_own d (errorHandler f ctx d).
Proof.
  unfold silent, settled_own, errorHandler, owed.
  destruct (f ctx d) as [evs [[err|]|v|code]]; cbn; intros [Hsilent Hexit].
  - left. split; [|done]. intros tag. rewrite outcomes_app, Hsilent.
    unfold outcomes. cbn. by destruct (N.eqb (DeliveryTag d) tag).
  - left. split; [|done]. intros tag. rewrite outcomes_app, Hsilent.
    unfold outcomes. cbn. by destruct (N.eqb (DeliveryTag d) tag).
  - right. eauto.
  - by destruct (Hexit code).
Qed.

Lemma transparent_settled_own (mw : HostMiddleware) (next : HandlerFunc) d :
  transparent mw ->
  (forall ctx, settled_own d (next ctx d)) ->
  forall ctx, settled_own d (mw next ctx d).
Proof.
  intros Hmw Hnext ctx.
  destruct (Hmw next ctx d) as (pre & post & ctx' & Hpre & Hpost & Htrace & Hres).
  specialize (Hnext ctx'). unfold settled_own in *.
  rewrite Htrace, Hres.
  destruct Hnext as [[Hown Hr]|[Hnone Hr]]; [left|right]; (split; [|done]);
    intros tag; rewrite !outcomes_app, Hpre, Hpost.
  - by rewrite Hown, Nat.add_0_r.
  - by rewrite Hnone.
Qed.

Lemma nest_settled_own (mws : list HostMiddleware) (f : HandlerFunc) d :
  Forall transparent mws ->
  (forall ctx, settled_own d (f ctx d)) ->
  forall ctx, settled_own d (nest mws f ctx d).
Proof.
  induction 1 as [|mw mws Hmw _ IH]; intros Hf; [exact Hf|].
  cbn [nest]. apply transparent_settled_own; auto.
Qed.

Lemma panicHandler_settles_own (h : HandlerFunc) ctx d :
  settled_own d (h ctx d) ->
  (forall tag, outcomes tag (trace (panicHandler h ctx d)) = owed tag d)
  /\ result (panicHandler h ctx d) = Normal tt.
Proof.
  unfold settled_own, panicHandler, defer_recover.
  destruct (h ctx d) as [evs r]. cbn.
  intros [[Hown ->]|[Hnone [v ->]]]; cbn; (split; [intros tag|done]).
  - by rewrite app_nil_r.
  - rewrite outcomes_app, Hnone. unfold outcomes, owed. cbn.
    by destruct (N.eqb (DeliveryTag d) tag).
Qed.

Lemma outcomes_flat_map_owed tag (msgs : list amqp_Delivery)
    (run : amqp_Delivery -> list Event) :
  (forall d, outcomes tag (run d) = owed tag d) ->
  NoDup (DeliveryTag <$> msgs) ->
  outcomes tag (flat_map run msgs)
    = if decide (tag ∈ DeliveryTag <$> msgs) then 1 else 0.
Proof.
  intros Hrun. induction msgs as [|d msgs IH]; intros Hnodup; [reflexivity|].
  cbn [flat_map]. rewrite outcomes_app, Hrun. rewrite fmap_cons in *.
  apply NoDup_cons in Hnodup as [Hfresh Hnodup]. rewrite (IH Hnodup).
  unfold owed. destruct (N.eqb_spec (DeliveryTag d) tag) as [<-|Hne].
  - rewrite decide_False by done. rewrite decide_True by apply list_elem_of_here.
    reflexivity.
  - destruct (decide (tag ∈ DeliveryTag <$> msgs)) as [Hin|Hout].
    + rewrite decide_True by (by apply list_elem_of_further). reflexivity.
    + rewrite decide_False; [reflexivity|].
      intros [?|?]%elem_of_cons; congruence.
Qed.

(** X3: in the consuming goroutine of a host whose middleware list is full
    (capacity equal to length), with middleware that are all [transparent]
    (each calls the handler it wraps exactly once, on the same delivery;
    apart from that call it only emits events that are no Ack and no Nack;
    and it ends as the call ended, returning when the call returned and
    letting its panic through, with no panic of its own and no recovery),
    and a business handler that settles nothing itself: when the deliveries
    that arrive carry distinct tags, the goroutine returns normally and its
    whole trace holds exactly one Ack or Nack for each of them, whichever of
    them the business handler fails or panics on, and none for any other
    tag. *)
Theorem consume_task_settles_each h (mws : list HostMiddleware) cn cfg key
    routes uuid msgs :
  shows (middleware h) mws 0 ->
  Forall transparent mws ->
  transparent (Consumer_Middleware cn) ->
  (forall ctx d, silent (DeliveryFunc routes ctx d)) ->
  NoDup (DeliveryTag <$> msgs) ->
  exists evs,
    consume_task h cn cfg key routes uuid (inr msgs) = (evs, Normal tt)
    /\ forall tag,
         outcomes tag evs = if decide (tag ∈ DeliveryTag <$> msgs) then 1 else 0.
Proof.
  intros Hshows Hhost Hconsumer Hsilent Hnodup.
  set (inner := Consumer_Middleware cn (errorHandler (DeliveryFunc routes))).
  assert (Hchain : buildChain inner (middleware h) = Normal (nest mws inner)).
  { destruct (buildChain_shows inner _ _ _ Hshows) as [[_ Heq]|[[_ Hspare] _]];
      [exact Heq|done]. }
  assert (Hown : forall d,
             (forall tag, outcomes tag
                            (trace (panicHandler (nest mws inner) context_Background d))
                          = owed tag d)
             /\ result (panicHandler (nest mws inner) context_Background d)
                = Normal tt).
  { intros d. apply panicHandler_settles_own, nest_settled_own; [done|].
    apply transparent_settled_own; [done|].
    intros ctx'. by apply errorHandler_settled_own. }
  exists (Consume key (GetName cfg +:+ "-" +:+ uuid) false (GetExclusive cfg)
            false (GetNoWait cfg)
          :: flat_map (fun d => trace (panicHandler (nest mws inner)
                                         context_Background d)) msgs).
  split.
  - unfold consume_task. fold inner. rewrite Hchain.
    unfold lift, emit, bind.
    rewrite (for_range_normal msgs
               (fun d => panicHandler (nest mws inner) context_Background d))
      by (intros d _; apply Hown).
    reflexivity.
  - intros tag.
    rewrite <- (outcomes_flat_map_owed tag msgs
                  (fun d => trace (panicHandler (nest mws inner)
                                     context_Background d)))
      by (done || intros d; apply Hown).
    reflexivity.
Qed.

Lemma consume_task_settles_each_witness :
  exists evs,
    consume_task (Middleware [Some (logging "A")] sample_host) plain_consumer
      empty_ConsumerConfig "orders" (sample_routes handler_err) "u1"
      (inr [sample_delivery; mkDelivery "order.paid" "corr-2" 8 "{}"])
      = (evs, Normal tt)
    /\ forall tag,
         outcomes tag evs
           = if decide (tag ∈ DeliveryTag
                          <$> [sample_delivery;
                               mkDelivery "order.paid" "corr-2" 8 "{}"])
             then 1 else 0.
Proof.
  refine (consume_task_settles_each
            (Middleware [Some (logging "A")] sample_host) [logging "A"]
            plain_consumer empty_ConsumerConfig "orders"
            (sample_routes handler_err) "u1"
            [sample_delivery; mkDelivery "order.paid" "corr-2" 8 "{}"]
            (conj eq_refl eq_refl) _ _ _ _).
  - repeat constructor. apply logging_transparent.
  - apply identity_transparent.
  - intros ctx d. split; [reflexivity|discriminate].
  - apply (bool_decide_unpack _). vm_compute. exact I.
Defined.

(** ** Registering middleware and brokers *)

Lemma Middleware_calls_show (calls : list (list HostMiddleware)) h mws spare :
  shows (middleware h) mws spare ->
  exists spare',
    shows (middleware (foldl (fun h fn => Middleware (Some <$> fn) h) h calls))
      (mws ++ concat calls) spare'.
Proof.
  revert h mws spare.
  induction calls as [|fn calls IH]; intros h mws spare Hshows; cbn.
  - exists spare. by rewrite app_nil_r.
  - destruct (Middleware_shows fn h mws spare Hshows) as [spare' Hnext].
    destruct (IH _ _ _ Hnext) as [spare'' Hlast].
    exists spare''. by rewrite app_assoc.
Qed.

(** X4: however the registrations are grouped into calls of [Middleware],
    and however [append] grows the array, the list of a host that started
    empty shows exactly the functions registered, in the order of
    registration, and what is left of the array behind them is nil. *)
Theorem Middleware_registers_in_order (calls : list (list HostMiddleware)) cfg :
  exists spare,
    shows (middleware (foldl (fun h fn => Middleware (Some <$> fn) h)
                         (new_RabbitHost cfg) calls))
      (concat calls) spare.
Proof. apply (Middleware_calls_show calls _ [] 0), new_RabbitHost_shows. Qed.

(** X5: for a host that started empty and had non-nil middleware registered
    by any calls of [Middleware], the chain of a queue is built exactly when
    nothing was registered or the list's capacity equals its length, and is
    then the nesting of the registered middleware in order of registration,
    first outermost; in every other case building it panics on a nil
    function. *)
Theorem registered_chain_builds_iff_full f (calls : list (list HostMiddleware))
    cfg :
  let h := foldl (fun h fn => Middleware (Some <$> fn) h) (new_RabbitHost cfg)
             calls in
  (concat calls = [] \/ cap (middleware h) = len (middleware h) ->
   buildChain f (middleware h) = Normal (nest (concat calls) f))
  /\ (concat calls <> [] /\ cap (middleware h) <> len (middleware h) ->
      buildChain f (middleware h) = Panicked nil_dereference).
Proof.
  cbn zeta.
  destruct (Middleware_calls_show calls (new_RabbitHost cfg) [] 0
              (new_RabbitHost_shows cfg)) as [spare Hshows].
  cbn [app] in Hshows.
  assert (Hcap : cap (middleware (foldl (fun h fn => Middleware (Some <$> fn) h)
                                    (new_RabbitHost cfg) calls))
                 = len (middleware (foldl (fun h fn => Middleware (Some <$> fn) h)
                                      (new_RabbitHost cfg) calls)) + spare).
  { destruct Hshows as [Harr Hlen]. unfold cap.
    by rewrite Harr, Hlen, length_app, length_fmap, length_replicate. }
  destruct (buildChain_shows f _ _ _ Hshows) as [[Hok ->]|[[Hne Hspare] ->]].
  - split; [done|]. intros [Hne Hneq]. destruct Hok as [?|?]; [done|lia].
  - split; [|done]. intros [?|?]; [done|lia].
Qed.

(** Five middleware registered in one call: [append] asks for 40 bytes and
    gets a block of 48, the capacity is 6, and the chain cannot be built. *)
Example five_in_one_call (A : HostMiddleware) f cfg :
  let h := Middleware [Some A; Some A; Some A; Some A; Some A]
             (new_RabbitHost cfg) in
  len (middleware h) = 5 /\ cap (middleware h) = 6
  /\ buildChain f (middleware h) = Panicked nil_dereference.
Proof. cbn zeta. repeat split. Qed.

Lemma buildChain_from_length f (a : list (option HostMiddleware)) n :
  a <> [] -> n <> 0 -> buildChain_from f a n = buildChain_from f a (length a).
Proof. intros Ha Hn. destruct a; [done|]. by destruct n. Qed.

Lemma buildChain_from_whole f (a : list (option HostMiddleware)) :
  (exists all, a = Some <$> all
               /\ buildChain_from f a (length a) = Normal (nest all f))
  \/ (None ∈ a /\ buildChain_from f a (length a) = Panicked nil_dereference).
Proof.
  induction a as [|m0 rest IH].
  - left. by exists [].
  - cbn. destruct IH as [(all & -> & ->)|[Hin ->]].
    + destruct m0 as [mw|].
      * left. by exists (mw :: all).
      * right. split; [apply list_elem_of_here|reflexivity].
    + right. split; [by apply list_elem_of_further|reflexivity].
Qed.

Lemma buildChain_from_nil_inside f (a : list (option HostMiddleware)) n :
  None ∈ a -> n <> 0 -> buildChain_from f a n = Panicked nil_dereference.
Proof.
  intros Hin Hn. rewrite buildChain_from_length; [|by intros ->; apply elem_of_nil in Hin|done].
  destruct (buildChain_from_whole f a) as [(all & -> & _)|[_ ->]]; [|done].
  apply list_elem_of_fmap in Hin as (mw & ? & _). discriminate.
Qed.

(** X6: [Middleware] takes a nil function as it takes any other; once one
    has been registered, on whatever host, [buildChain] on the host's list
    calls it and panics, so no chain can be built for any queue. *)
Theorem Middleware_nil_breaks_chain f (fn : list (option HostMiddleware)) h :
  None ∈ fn ->
  buildChain f (middleware (Middleware fn h)) = Panicked nil_dereference.
Proof.
  intros Hin. unfold buildChain, Middleware, append. cbn.
  assert (Hfn : length fn <> 0).
  { destruct fn; [by apply elem_of_nil in Hin|done]. }
  case_decide; cbn; (apply buildChain_from_nil_inside; [|lia]);
    rewrite !elem_of_app; auto.
Qed.

Lemma Middleware_nil_breaks_chain_witness :
  buildChain (errorHandler handler_ok)
    (middleware (Middleware [Some (logging "A"); None] sample_host))
  = Panicked nil_dereference.
Proof.
  apply (Middleware_nil_breaks_chain (errorHandler handler_ok)
           [Some (logging "A"); None] sample_host).
  apply list_elem_of_further, list_elem_of_here.
Defined.

(** ** Brokers and the start of [Run] *)

Lemma AddBroker_all (bs : list (string * list Consumer)) h :
  let h' := foldl (fun h b => fst (AddBroker (mkExchangeConfig (inl (fst b)))
                                     (snd b) h)) h bs in
  exchanges h' = exchanges h ++ ((fun b => named_exchange (fst b) (snd b)) <$> bs)
  /\ connection h' = connection h.
Proof.
  cbn zeta. revert h. induction bs as [|b bs IH]; intros h; cbn [foldl fmap list_fmap].
  - by rewrite app_nil_r.
  - destruct (IH (fst (AddBroker (mkExchangeConfig (inl (fst b))) (snd b) h)))
      as [-> ->].
    cbn. by rewrite <- app_assoc.
Qed.

Lemma Run_exchanges_named ch (good : list (string * list Consumer)) rest :
  Run_exchanges ch (((fun b => named_exchange (fst b) (snd b)) <$> good) ++ rest)
  = (flat_map (fun b => [BuildExchange (fst b) ch; GoConsumers (fst b)]) good
       ++ fst (Run_exchanges ch rest),
     snd (Run_exchanges ch rest)).
Proof.
  induction good as [|b good IH]; cbn.
  - by destruct (Run_exchanges ch rest).
  - rewrite IH. reflexivity.
Qed.

Lemma started_exchanges_app (xs ys : list RunEvent) :
  started_exchanges (xs ++ ys) = started_exchanges xs ++ started_exchanges ys.
Proof. apply omap_app. Qed.

Lemma started_exchanges_named ch (good : list (string * list Consumer)) :
  started_exchanges
    (flat_map (fun b => [BuildExchange (fst b) ch; GoConsumers (fst b)]) good)
  = fst <$> good.
Proof.
  induction good as [|b good IH]; [reflexivity|].
  cbn [flat_map]. rewrite started_exchanges_app, IH. reflexivity.
Qed.


(** X7: brokers registered with [AddBroker] on a connected host that had
    none, each with a name that [GetName] returns: [Run] builds every
    exchange on the setup channel and starts one consumer-starting goroutine
    per broker, in the order of registration, then closes the setup channel,
    logs that the host has started, and waits for a signal. *)
Theorem Run_starts_brokers_in_order (bs : list (string * list Consumer)) h ch :
  is_Some (connection h) -> exchanges h = [] ->
  let h' := foldl (fun h b => fst (AddBroker (mkExchangeConfig (inl (fst b)))
                                     (snd b) h)) h bs in
  Run_start (inr ch) h' =
    Some (HostEvent OpenChannel
          :: flat_map (fun b => [BuildExchange (fst b) ch; GoConsumers (fst b)]) bs
          ++ [HostEvent (CloseChannel ch);
              HostEvent (Logf InfoLevel "host started" [])],
          RunWaiting)
  /\ (forall evs out, Run_start (inr ch) h' = Some (evs, out) ->
      started_exchanges evs = fst <$> bs).
Proof.
  intros [conn Hconn] Hnone. cbn zeta.
  destruct (AddBroker_all bs h) as [Hex Hc]. cbn zeta in Hex, Hc.
  assert (Hrun : Run_start (inr ch)
                   (foldl (fun h b => fst (AddBroker (mkExchangeConfig (inl (fst b)))
                                             (snd b) h)) h bs)
                 = Some (HostEvent OpenChannel
                         :: flat_map (fun b => [BuildExchange (fst b) ch;
                                                GoConsumers (fst b)]) bs
                         ++ [HostEvent (CloseChannel ch);
                             HostEvent (Logf InfoLevel "host started" [])],
                         RunWaiting)).
  { unfold Run_start. rewrite Hc, Hconn, Hex, Hnone. cbn [app].
    rewrite <- (app_nil_r (_ <$> bs)), Run_exchanges_named. cbn.
    by rewrite app_nil_r. }
  split; [exact Hrun|].
  intros evs out Hsome. rewrite Hrun in Hsome. injection Hsome as <- _.
  cbn. rewrite started_exchanges_app, started_exchanges_named. cbn.
  by rewrite app_nil_r.
Qed.

Lemma Run_starts_brokers_in_order_witness :
  Run_start (inr (mkChannel 0))
    (fst (AddBroker (mkExchangeConfig (inl "billing")) [plain_consumer]
            (fst (AddBroker (mkExchangeConfig (inl "shop")) []
                    (set_connection (mkConnection 1) sample_host))))) =
    Some ([HostEvent OpenChannel;
           BuildExchange "shop" (mkChannel 0); GoConsumers "shop";
           BuildExchange "billing" (mkChannel 0); GoConsumers "billing";
           HostEvent (CloseChannel (mkChannel 0));
           HostEvent (Logf InfoLevel "host started" [])],
          RunWaiting).
Proof.
  exact (proj1 (Run_starts_brokers_in_order
                  [("shop", []); ("billing", [plain_consumer])]
                  (set_connection (mkConnection 1) sample_host) (mkChannel 0)
                  (ex_intro _ (mkConnection 1) eq_refl) eq_refl)).
Defined.



(** ** The task of a queue, along a schedule *)

Lemma queue_step_flags key k n cfg env pc h :
  shutdown (queue_step key k n cfg env pc h).1.1 = shutdown h
  /\ connected (queue_step key k n cfg env pc h).1.1 = connected h.
Proof.
  unfold queue_step, queue_top, queue_select.
  destruct pc; [|destruct (q_signal env)|done].
  - destruct (connected h) eqn:Hc; cbn; [|done]. by destruct (q_acquired env).
  - by destruct (shutdown h) eqn:Hs.
  - by destruct (shutdown h) eqn:Hs.
Qed.

Lemma queue_step_other_key key k n cfg env pc h key' :
  key' <> key ->
  channels (queue_step key k n cfg env pc h).1.1 !! key' = channels h !! key'.
Proof.
  intros Hne. unfold queue_step, queue_top, queue_select.
  destruct pc; [|destruct (q_signal env)|done].
  - destruct (connected h); cbn; [|done].
    destruct (q_acquired env); cbn; [done|]. by rewrite lookup_insert_ne.
  - destruct (shutdown h); cbn; [done|]. by rewrite lookup_delete_ne.
  - destruct (shutdown h); cbn; [done|]. by rewrite lookup_delete_ne.
Qed.

(** X9: a queue task writes no entry of the registry but its own: along any
    schedule, the entry of another queue is at the end what the other
    goroutines have made of it. *)
Theorem queue_run_other_keys key k n cfg schedule pc h key' :
  key' <> key ->
  Forall (fun env => forall h0,
            channels (q_interfere env h0) !! key' = channels h0 !! key') schedule ->
  channels (queue_run key k n cfg schedule pc h).1.1 !! key' = channels h !! key'.
Proof.
  intros Hne Hsched. revert pc h.
  induction Hsched as [|env rest Henv _ IH]; intros pc h; [reflexivity|].
  rewrite queue_run_cons. cbn zeta. cbn [fst snd].
  by rewrite IH, queue_step_other_key, Henv.
Qed.

Lemma queue_run_other_keys_witness :
  channels
    (queue_run "orders" "orders" "shop" empty_ConsumerConfig
       [mkQueueEnv (fun h => h) (inr (mkChannel 2)) (ChannelClosed None);
        mkQueueEnv (fun h => h) (inr (mkChannel 2)) (ChannelClosed None)]
       QueueTop
       (set_channels {["invoices" := mkChannel 1]}
          (set_connected true sample_host))).1.1 !! "invoices"
  = Some (mkChannel 1).
Proof.
  refine (eq_trans
            (queue_run_other_keys "orders" "orders" "shop" empty_ConsumerConfig
               [mkQueueEnv (fun h => h) (inr (mkChannel 2)) (ChannelClosed None);
                mkQueueEnv (fun h => h) (inr (mkChannel 2)) (ChannelClosed None)]
               QueueTop
               (set_channels {["invoices" := mkChannel 1]}
                  (set_connected true sample_host))
               "invoices" _ _) _).
  - discriminate.
  - repeat constructor.
  - apply lookup_singleton_eq.
Defined.

Lemma queue_step_registered key k n cfg env pc h :
  queue_registered key pc h ->
  queue_registered key (queue_step key k n cfg env pc h).2
    (queue_step key k n cfg env pc h).1.1.
Proof.
  unfold queue_step, queue_top, queue_select.
  destruct pc; cbn [queue_registered]; [|destruct (q_signal env)|done].
  - destruct (connected h); cbn; [|done].
    destruct (q_acquired env); cbn; [done|].
    intros _. rewrite lookup_insert_eq. by eexists.
  - destruct (shutdown h); cbn; [done|]. intros _. apply lookup_delete_eq.
  - destruct (shutdown h); cbn; [done|]. intros _. apply lookup_delete_eq.
Qed.

(** X10: the entry of a queue is in the registry exactly while its task
    holds a channel.  Starting from the top of the loop with no entry, and
    as long as no other goroutine touches that entry, after any number of
    steps the entry is absent if the task is at the top of its loop, and
    present if it is in its [select] or has ended. *)
Theorem queue_run_registered key k n cfg schedule pc h :
  queue_registered key pc h ->
  Forall (fun env => forall h0,
            channels (q_interfere env h0) !! key = channels h0 !! key) schedule ->
  queue_registered key (queue_run key k n cfg schedule pc h).2
    (queue_run key k n cfg schedule pc h).1.1.
Proof.
  intros Hreg Hsched. revert pc h Hreg.
  induction Hsched as [|env rest Henv _ IH]; intros pc h Hreg; [exact Hreg|].
  rewrite queue_run_cons. cbn zeta. cbn [fst snd].
  apply IH, queue_step_registered.
  destruct pc; cbn in *; by rewrite Henv.
Qed.

Lemma queue_run_registered_witness :
  queue_registered "orders"
    (queue_run "orders" "orders" "shop" empty_ConsumerConfig
       [mkQueueEnv (fun h => h) (inr (mkChannel 2)) (ChannelClosed None);
        mkQueueEnv (fun h => h) (inr (mkChannel 2)) (ChannelClosed None);
        mkQueueEnv (fun h => h) (inr (mkChannel 3)) (ChannelClosed None)]
       QueueTop (set_connected true sample_host)).2
    (queue_run "orders" "orders" "shop" empty_ConsumerConfig
       [mkQueueEnv (fun h => h) (inr (mkChannel 2)) (ChannelClosed None);
        mkQueueEnv (fun h => h) (inr (mkChannel 2)) (ChannelClosed None);
        mkQueueEnv (fun h => h) (inr (mkChannel 3)) (ChannelClosed None)]
       QueueTop (set_connected true sample_host)).1.1.
Proof.
  apply (queue_run_registered "orders" "orders" "shop" empty_ConsumerConfig
           [mkQueueEnv (fun h => h) (inr (mkChannel 2)) (ChannelClosed None);
            mkQueueEnv (fun h => h) (inr (mkChannel 2)) (ChannelClosed None);
            mkQueueEnv (fun h => h) (inr (mkChannel 3)) (ChannelClosed None)]
           QueueTop (set_connected true sample_host)).
  - reflexivity.
  - repeat constructor.
Defined.

(** X11: a queue task ends only on shutdown.  Along a schedule on which
    [shutdown] is never set, whatever the broker answers (channel
    acquisition failing, channels closing with or without an error, the
    queue being cancelled), a task that has not ended does not end. *)
Theorem queue_run_ends_only_on_shutdown key k n cfg schedule pc h :
  shutdown h = false ->
  Forall (fun env => forall h0,
            shutdown h0 = false -> shutdown (q_interfere env h0) = false)
    schedule ->
  pc <> QueueDone ->
  (queue_run key k n cfg schedule pc h).2 <> QueueDone.
Proof.
  intros Hs Hsched. revert pc h Hs.
  induction Hsched as [|env rest Henv _ IH]; intros pc h Hs Hpc; [exact Hpc|].
  rewrite queue_run_cons. cbn zeta. cbn [fst snd].
  specialize (Henv h Hs).
  apply IH.
  - by rewrite (proj1 (queue_step_flags key k n cfg env pc (q_interfere env h))).
  - unfold queue_step, queue_top, queue_select.
    destruct pc; [|destruct (q_signal env); by rewrite Henv|done].
    destruct (connected (q_interfere env h)); cbn; [|done].
    by destruct (q_acquired env).
Qed.

Lemma queue_run_ends_only_on_shutdown_witness :
  (queue_run "orders" "orders" "shop" empty_ConsumerConfig
     [mkQueueEnv (fun h => h) (inr (mkChannel 2)) (ChannelClosed None);
      mkQueueEnv (fun h => h) (inr (mkChannel 2))
        (ChannelClosed (Some amqp_ErrClosed));
      mkQueueEnv (fun h => h) (inl amqp_ErrClosed) (QueueCancelled "tag")]
     QueueTop (set_connected true sample_host)).2 <> QueueDone.
Proof.
  apply (queue_run_ends_only_on_shutdown "orders" "orders" "shop"
           empty_ConsumerConfig
           [mkQueueEnv (fun h => h) (inr (mkChannel 2)) (ChannelClosed None);
            mkQueueEnv (fun h => h) (inr (mkChannel 2))
              (ChannelClosed (Some amqp_ErrClosed));
            mkQueueEnv (fun h => h) (inl amqp_ErrClosed) (QueueCancelled "tag")]
           QueueTop (set_connected true sample_host)).
  - reflexivity.
  - repeat constructor; intros h0 Hh0; exact Hh0.
  - discriminate.
Defined.

(** X12: at the top of its loop a queue task does not look at [shutdown].
    As long as [connected] is false, which is how [Stop] leaves it, the task
    sleeps 200ms and polls again, asks the broker for nothing, and stays at
    the top of its loop, whether or not [shutdown] is set. *)
Theorem queue_run_polls_while_disconnected key k n cfg schedule h :
  Forall (fun env => forall h0, connected (q_interfere env h0) = false)
    schedule ->
  (queue_run key k n cfg schedule QueueTop h).2 = QueueTop
  /\ (queue_run key k n cfg schedule QueueTop h).1.2
     = replicate (length schedule) (Sleep 200)
  /\ (queue_run key k n cfg schedule QueueTop h).1.1
     = foldl (fun h0 env => q_interfere env h0) h schedule.
Proof.
  intros Hsched. revert h.
  induction Hsched as [|env rest Henv _ IH]; intros h; [done|].
  rewrite queue_run_cons. cbn zeta. cbn [fst snd queue_step].
  unfold queue_top. rewrite Henv. cbn [negb fst snd].
  destruct (IH (q_interfere env h)) as (-> & -> & ->). done.
Qed.

Lemma queue_run_polls_while_disconnected_witness :
  let stop := fun h => set_connected false (set_shutdown true h) in
  let schedule :=
    replicate 3 (mkQueueEnv stop (inr (mkChannel 2)) (ChannelClosed None)) in
  (queue_run "orders" "orders" "shop" empty_ConsumerConfig schedule QueueTop
     sample_host).2 = QueueTop
  /\ (queue_run "orders" "orders" "shop" empty_ConsumerConfig schedule QueueTop
        sample_host).1.2 = replicate (length schedule) (Sleep 200)
  /\ (queue_run "orders" "orders" "shop" empty_ConsumerConfig schedule QueueTop
        sample_host).1.1 = foldl (fun h0 env => q_interfere env h0) sample_host
                             schedule.
Proof.
  cbn zeta.
  apply (queue_run_polls_while_disconnected "orders" "orders" "shop"
           empty_ConsumerConfig
           (replicate 3 (mkQueueEnv
                           (fun h => set_connected false (set_shutdown true h))
                           (inr (mkChannel 2)) (ChannelClosed None)))
           sample_host).
  repeat constructor.
Defined.

(** ** The dead-letter watchdog, along a schedule *)

(** X13: along a schedule on which [shutdown] is never set, a watchdog that
    has not ended does not end through [return]; and if moreover every
    channel acquisition succeeds, it does not end at all, whatever
    [BuildDeadletterQueue] answers: a build error is logged and the loop
    goes on. *)
Theorem deadletter_run_keeps_going key n schedule pc :
  Forall (fun he => shutdown he.1 = false) schedule ->
  (pc <> DLDone Return -> (deadletter_run key n schedule pc).2 <> DLDone Return)
  /\ (Forall (fun he => exists dlCh, dl_acquired he.2 = inr dlCh) schedule ->
      (forall how, pc <> DLDone how) ->
      forall how, (deadletter_run key n schedule pc).2 <> DLDone how).
Proof.
  intros Hsched. split.
  - revert pc. induction Hsched as [|[h env] rest Hs _ IH]; intros pc Hpc;
      [exact Hpc|].
    rewrite deadletter_run_cons. cbn zeta. cbn [fst snd] in *. apply IH.
    destruct pc as [| | |how]; cbn.
    + by rewrite Hs.
    + by destruct (connected h).
    + by destruct (dl_acquired env).
    + done.
  - intros Hacq. revert pc.
    induction Hsched as [|[h env] rest Hs _ IH]; intros pc Hpc how;
      [apply Hpc|].
    apply Forall_cons in Hacq as [[dlCh Hok] Hacq].
    rewrite deadletter_run_cons. cbn zeta. cbn [fst snd] in *.
    apply (IH Hacq). intros how'.
    destruct pc as [| | |how0]; cbn.
    + by rewrite Hs.
    + by destruct (connected h).
    + by rewrite Hok.
    + by destruct (Hpc how0).
Qed.

Lemma deadletter_run_keeps_going_witness :
  let h := set_connected true sample_host in
  let env := mkDeadLetterEnv (inr (mkChannel 5)) (Some (errors_New "no queue")) in
  (deadletter_run "orders" "shop" (replicate 6 (h, env)) DLTop).2
    <> DLDone Break.
Proof.
  cbn zeta.
  refine (proj2 (deadletter_run_keeps_going "orders" "shop"
                   (replicate 6 (set_connected true sample_host,
                                 mkDeadLetterEnv (inr (mkChannel 5))
                                   (Some (errors_New "no queue"))))
                   DLTop _) _ _ Break).
  - repeat constructor.
  - repeat constructor; by exists (mkChannel 5).
  - discriminate.
Defined.

(** X14: while it waits for a connection the watchdog does not look at
    [shutdown]: as long as [connected] is false, which is how [Stop] leaves
    it, a watchdog in its wait loop sleeps 200ms and looks again, and stays
    there, whether or not [shutdown] is set. *)
Theorem deadletter_run_waits_while_disconnected key n schedule :
  Forall (fun he => connected he.1 = false) schedule ->
  deadletter_run key n schedule DLWait
    = (replicate (length schedule) (Sleep 200), DLWait).
Proof.
  induction 1 as [|[h env] rest Hc _ IH]; [reflexivity|].
  rewrite deadletter_run_cons. cbn zeta. unfold deadletter_step.
  cbn [fst snd] in Hc. rewrite Hc. cbn [negb fst snd]. rewrite IH. reflexivity.
Qed.

Lemma deadletter_run_waits_while_disconnected_witness :
  let stopped := set_connected false (set_shutdown true sample_host) in
  let env := mkDeadLetterEnv (inr (mkChannel 5)) None in
  deadletter_run "orders" "shop" (replicate 4 (stopped, env)) DLWait
    = (replicate 4 (Sleep 200), DLWait).
Proof.
  cbn zeta.
  apply (deadletter_run_waits_while_disconnected "orders" "shop"
           (replicate 4 (set_connected false (set_shutdown true sample_host),
                         mkDeadLetterEnv (inr (mkChannel 5)) None))).
  repeat constructor.
Defined.

(** ** What [Stop] closes *)




(** ** The connection watcher *)

Lemma connect_returns dials h h' evs :
  connect dials h = Some (h', evs) ->
  exists conn, h' = set_connection conn (set_connected true h).
Proof.
  revert evs. induction dials as [|[err|conn] rest IH]; intros evs; cbn.
  - discriminate.
  - destruct (connect rest h) as [[h'' evs']|]; [|discriminate].
    intros [= <- _]. by eapply IH.
  - intros [= <- _]. by exists conn.
Qed.


Lemma connectionLoop_turn_keeps rabbitErr dials h h' evs :
  connectionLoop_turn rabbitErr dials h = Some (h', evs) ->
  c h' = c h /\ exchanges h' = exchanges h /\ channels h' = channels h
  /\ middleware h' = middleware h /\ shutdown h' = shutdown h
  /\ (is_Some rabbitErr -> connected h' = true /\ is_Some (connection h'))
  /\ (rabbitErr = None -> h' = h /\ evs = []).
Proof.
  unfold connectionLoop_turn. destruct rabbitErr as [rabbitErr|].
  - destruct (connect dials (set_connected false h)) as [[h1 evs1]|] eqn:Hconnect;
      [|discriminate].
    apply connect_returns in Hconnect as [conn ->]. cbn.
    intros [= <- _]. repeat split; try done; by eexists.
  - intros [= <- <-]. repeat split; try done; by intros [? ?].
Qed.

(** X17: the connection watcher, over any notifications it has dealt with,
    writes [connected] and [connection] and nothing else of the host:
    exchanges, registry, middleware and the [shutdown] flag are as they were.
    If every notification was nil the host is untouched and nothing was
    dialled or logged; if the last one carried an error, the host is
    connected. *)
Theorem connectionLoop_keeps_host received h h' evs :
  connectionLoop received h = Some (h', evs) ->
  (c h' = c h /\ exchanges h' = exchanges h /\ channels h' = channels h
   /\ middleware h' = middleware h /\ shutdown h' = shutdown h)
  /\ (Forall (fun r => r.1 = None) received -> h' = h /\ evs = [])
  /\ (forall before rabbitErr dials,
        received = before ++ [(Some rabbitErr, dials)] ->
        connected h' = true /\ is_Some (connection h')).
Proof.
  revert h evs. induction received as [|[rabbitErr dials] rest IH]; intros h evs.
  - cbn. intros [= <- <-]. split; [done|]. split; [done|].
    intros before r ds Heq. by destruct before.
  - cbn [connectionLoop].
    destruct (connectionLoop_turn rabbitErr dials h) as [[h1 evs1]|] eqn:Hturn;
      [|discriminate].
    destruct (connectionLoop rest h1) as [[h2 evs2]|] eqn:Hrest; [|discriminate].
    intros [= <- <-].
    apply connectionLoop_turn_keeps in Hturn
      as (Hc & Hex & Hch & Hmw & Hsh & Hsome & Hnone).
    destruct (IH _ _ Hrest) as ((Hc' & Hex' & Hch' & Hmw' & Hsh') & Hnil & Hlast).
    split; [|split].
    + repeat split; congruence.
    + intros [Hhead Htail]%Forall_cons. cbn in Hhead.
      destruct (Hnone Hhead) as [-> ->]. by apply Hnil.
    + intros before r ds Heq. destruct before as [|b before]; cbn in Heq.
      * injection Heq as -> -> ->. cbn in Hrest. injection Hrest as <- _.
        apply Hsome. by eexists.
      * injection Heq as _ Heq. by eapply Hlast.
Qed.

Lemma connectionLoop_keeps_host_witness :
  let h' := set_connection (mkConnection 2)
              (set_connected true (set_shutdown true sample_host)) in
  (c h' = c (set_shutdown true sample_host)
   /\ exchanges h' = exchanges (set_shutdown true sample_host)
   /\ channels h' = channels (set_shutdown true sample_host)
   /\ middleware h' = middleware (set_shutdown true sample_host)
   /\ shutdown h' = shutdown (set_shutdown true sample_host)).
Proof.
  exact (proj1 (connectionLoop_keeps_host
                  [(None, []);
                   (Some amqp_ErrClosed,
                    [inl (errors_New "refused"); inr (mkConnection 2)])]
                  (set_shutdown true sample_host) _ _ eq_refl)).
Defined.

Lemma Run_start_no_exchanges ch h :
  is_Some (connection h) -> exchanges h = [] ->
  Run_start (inr ch) h
    = Some ([HostEvent OpenChannel; HostEvent (CloseChannel ch);
             HostEvent (Logf InfoLevel "host started" [])], RunWaiting).
Proof. intros [conn Hc] Hex. unfold Run_start. by rewrite Hc, Hex. Qed.

(** X18: the host [NewConsumerHost] hands out is not connected and has no
    connection, and [Run] on it spins.  Once the watcher's first turn, on
    [amqp.ErrClosed], is over (which takes a dial that succeeds) the host is
    connected, with no exchange, an empty registry and no middleware, and
    [Run] goes on: with no broker registered it opens and closes the setup
    channel, logs that the host has started and waits for a signal. *)
Theorem NewConsumerHost_connects cfg (errs : list error) conn later ch :
  GetConnectionStatus (new_RabbitHost cfg) = false
  /\ (forall acquired, Run_start acquired (new_RabbitHost cfg) = None)
  /\ NewConsumerHost_first_turn cfg (inl <$> errs) = None
  /\ exists h evs,
       NewConsumerHost_first_turn cfg ((inl <$> errs) ++ inr conn :: later) = Some (h, evs)
       /\ GetConnectionStatus h = true /\ connection h = Some conn
       /\ exchanges h = [] /\ channels h = ∅ /\ len (middleware h) = 0
       /\ Run_start (inr ch) h
          = Some ([HostEvent OpenChannel; HostEvent (CloseChannel ch);
                   HostEvent (Logf InfoLevel "host started" [])], RunWaiting).
Proof.
  split; [reflexivity|]. split; [reflexivity|]. split.
  - unfold NewConsumerHost_first_turn, connectionLoop_turn. by rewrite connect_failures_none.
  - unfold NewConsumerHost_first_turn, connectionLoop_turn. rewrite connect_failures_then.
    cbn. eexists _, _. split; [reflexivity|]. repeat split.
Qed.

(** ** Starting the consumers *)

Lemma started_tasks_Go t (evs : list Event) :
  started_tasks (Go t :: evs) = t :: started_tasks evs.
Proof. reflexivity. Qed.

Lemma for_range_tasks (cfg : ConsumerConfig) (qs : list (string * Routes)) :
  exists evs,
    for_range qs
      (fun kr =>
         emit (Go (QueueTask (fst kr) cfg)) ;;;
         if GetHasDeadletter cfg
         then emit (Go (DeadLetterTask (fst kr) cfg))
         else ret tt) = (evs, Normal tt)
    /\ started_tasks evs = flat_map (fun kr => queue_tasks cfg (fst kr)) qs
    /\ forall e, e ∈ evs -> exists t, e = Go t.
Proof.
  induction qs as [|[k r] qs (evs & IH & Htasks & Hgo)].
  - exists []. split; [done|]. split; [done|]. by intros e ?%elem_of_nil.
  - cbn [for_range]. rewrite IH. unfold queue_tasks in *. cbn [fst flat_map].
    destruct (GetHasDeadletter cfg).
    + exists (Go (QueueTask k cfg) :: Go (DeadLetterTask k cfg) :: evs).
      split; [reflexivity|]. rewrite !started_tasks_Go, Htasks.
      split; [done|].
      intros e [->|[->|?]%elem_of_cons]%elem_of_cons; eauto.
    + exists (Go (QueueTask k cfg) :: evs).
      split; [reflexivity|]. rewrite !started_tasks_Go, Htasks.
      split; [done|].
      intros e [->|?]%elem_of_cons; eauto.
Qed.

(** X19: a consumer whose [Init] returns a config and no error gets, for
    each of its queues, one queue task and, when the config asks for a
    dead-letter queue, one watchdog right after it, all of them with that
    config; starting it does nothing else and returns. *)
Theorem start_consumer_tasks ctx (cn : Consumer) cfg :
  Init cn = (Some cfg, None) ->
  exists evs,
    start_consumer ctx cn = (evs, Normal tt)
    /\ started_tasks evs
       = flat_map (fun kr => queue_tasks cfg (fst kr)) (map_to_list (Queues cn ctx))
    /\ forall e, e ∈ evs -> exists t, e = Go t.
Proof.
  intros Hinit. unfold start_consumer. rewrite Hinit.
  destruct (for_range_tasks cfg (map_to_list (Queues cn ctx)))
    as (evs & Hrun & Htasks & Hgo).
  exists evs. unfold ret at 1. rewrite bind_normal, Hrun. done.
Qed.

Lemma start_consumer_tasks_witness :
  exists evs,
    start_consumer context_Background
      (sample_consumer (Some (mkConsumerConfig "billing" false false [] true)))
      = (evs, Normal tt)
    /\ started_tasks evs
       = flat_map
           (fun kr => queue_tasks (mkConsumerConfig "billing" false false [] true)
                        (fst kr))
           (map_to_list sample_queues)
    /\ forall e, e ∈ evs -> exists t, e = Go t.
Proof.
  exact (start_consumer_tasks context_Background
           (sample_consumer (Some (mkConsumerConfig "billing" false false [] true)))
           (mkConsumerConfig "billing" false false [] true) eq_refl).
Defined.

Lemma start_consumer_ok ctx (cn : Consumer) :
  init_ok cn -> result (start_consumer ctx cn) = Normal tt.
Proof.
  unfold init_ok, start_consumer. destruct (Init cn) as [cfg err]. cbn [snd].
  intros ->.
  destruct cfg as [cfg|];
    [destruct (for_range_tasks cfg (map_to_list (Queues cn ctx)))
       as (evs & Hrun & _)
    |destruct (for_range_tasks empty_ConsumerConfig (map_to_list (Queues cn ctx)))
       as (evs & Hrun & _)];
    unfold ret at 1; by rewrite bind_normal, Hrun.
Qed.

(** X20: the goroutine that starts an exchange's consumers takes them in
    order, and the first whose [Init] fails ends the process: the tasks of
    the consumers before it have been started, the error is logged at the
    fatal level, and the consumers after it are never looked at. *)
Theorem start_consumers_stops_at_fatal ctx e (good : list Consumer) bad cfg err
    (rest : list Consumer) :
  Forall init_ok good ->
  Init bad = (cfg, Some err) ->
  start_consumers ctx (mkExchange e (good ++ bad :: rest))
    = (trace (start_consumers ctx (mkExchange e good))
         ++ [Logp FatalLevel [LError err]],
       Exited 1)
  /\ result (start_consumers ctx (mkExchange e good)) = Normal tt.
Proof.
  intros Hgood Hbad. unfold start_consumers. cbn [consumers].
  induction Hgood as [|cn good Hcn _ [IH IHres]].
  - cbn. unfold start_consumer. rewrite Hbad. done.
  - cbn [app for_range].
    pose proof (start_consumer_ok ctx cn Hcn) as Hok.
    destruct (start_consumer ctx cn) as [evs r]. cbn in Hok. subst r.
    rewrite !bind_normal, IH, IHres. cbn. by rewrite app_assoc.
Qed.

Lemma start_consumers_stops_at_fatal_witness :
  start_consumers context_Background
    (mkExchange (mkExchangeConfig (inl "shop"))
       ([sample_consumer None] ++ failing_consumer :: [plain_consumer]))
  = (trace (start_consumers context_Background
              (mkExchange (mkExchangeConfig (inl "shop")) [sample_consumer None]))
       ++ [Logp FatalLevel [LError (errors_New "no config")]],
     Exited 1)
  /\ result (start_consumers context_Background
               (mkExchange (mkExchangeConfig (inl "shop")) [sample_consumer None]))
     = Normal tt.
Proof.
  apply (start_consumers_stops_at_fatal context_Background
           (mkExchangeConfig (inl "shop")) [sample_consumer None]
           failing_consumer None (errors_New "no config") [plain_consumer]).
  - repeat constructor.
  - reflexivity.
Defined.

(** ** [Stop] and a task that polls *)

(** X21: [Stop] does not return while a queue task is at the top of its
    loop.  [Stop] has set [connected] to false, and as long as no other
    goroutine writes the host the task finds it false, sleeps and polls
    again without reading [shutdown]; [h.wg.Wait()] waits for it, however
    long the schedule, whatever the other goroutines counted are. *)
Theorem Stop_waits_for_polling_task range_order close_error
    connection_close_error others key k n cfg schedule before rest
    (h : RabbitHost) :
  (forall h0, others h0 = h0) ->
  Forall ends_on_stop before ->
  Forall (fun env => forall h0, q_interfere env h0 = h0) schedule ->
  Stop range_order close_error connection_close_error others
    (before ++ WaitQueue key k n cfg QueueTop schedule :: rest) h = None.
Proof.
  intros Hothers Hbefore Hsched. unfold Stop. rewrite Hothers.
  assert (Hwait : wg_Wait (before ++ WaitQueue key k n cfg QueueTop schedule :: rest)
                    (set_connected false (set_shutdown true h)) = None).
  { induction Hbefore as [|w ws Hw _ IH]; cbn [app wg_Wait].
    - cbn [wait_for].
      pose proof (queue_run_stopped key k n cfg schedule QueueTop
                    (set_connected false (set_shutdown true h))
                    eq_refl eq_refl Hsched) as (_ & Htop & _).
      destruct (queue_run key k n cfg schedule QueueTop
                  (set_connected false (set_shutdown true h))) as [[h1 evs] pc1].
      cbn in Htop. by rewrite Htop.
    - by rewrite (wait_for_ends_on_stop w
                    (set_connected false (set_shutdown true h))
                    eq_refl eq_refl Hw). }
  by rewrite Hwait.
Qed.

Lemma Stop_waits_for_polling_task_witness :
  Stop [("orders", mkChannel 1)] (fun _ => None) None (fun h0 => h0)
    ([orders_task]
       ++ WaitQueue "invoices" "invoices" "shop" empty_ConsumerConfig QueueTop
            (replicate 5 (mkQueueEnv (fun h => h) (inr (mkChannel 3))
                            (ChannelClosed None)))
       :: [WaitConsume])
    running_host = None.
Proof.
  apply (Stop_waits_for_polling_task [("orders", mkChannel 1)] (fun _ => None)
           None (fun h0 => h0) "invoices" "invoices" "shop" empty_ConsumerConfig
           (replicate 5 (mkQueueEnv (fun h => h) (inr (mkChannel 3))
                           (ChannelClosed None)))
           [orders_task] [WaitConsume] running_host).
  - reflexivity.
  - repeat constructor.
  - repeat constructor.
Defined.
